(** * pyOptimalEstimation: the retrieval engine of [pyOEcore.py]

    A shallow embedding of [optimalEstimation.getJacobian],
    [optimalEstimation.doRetrieval], the diagnostics
    ([linearityTest], [chiSquareTest] and the four single chi-square tests),
    [summarize] and [summary], [invertMatrix], [_estimateChi2], [_testChi2]
    and the constructor call of [_oeDict2Object].

    - Scalars are IEEE binary64 numbers ([PrimFloat.float]), so that NaN,
      infinities and comparisons behave as they do for numpy's float64.
    - A numpy array of rank 2 is its rows together with its column count
      (the shape survives an empty axis); a vector or a [pd.Series] is the
      list of its values, its labels being the name lists of the engine,
      in which a label stands for its first position.
    - Python exceptions are values of [exn]; [print] and [warnings.warn]
      append to an output log.
    - numpy's and scipy's linear algebra ([np.linalg.inv], [np.linalg.cond],
      [np.linalg.det], [np.log], the two [eig], [scipy.stats.chi2.isf],
      [np.linalg.matrix_rank]), the forward model and the wall clock are
      external to the repository: they are the fields of an environment
      [env], over which every definition is parameterised.

    The model comes first, the properties second. *)

Set Warnings "-notation-overridden,-ambiguous-paths,-deprecated,-inexact-float".
From Stdlib Require Import Floats String ZArith Uint63.
From HB Require Import structures.
From mathcomp Require Import boot order algebra.

Set Implicit Arguments.
Unset Strict Implicit.
Unset Printing Implicit Defensive.

Local Open Scope string_scope.
Local Open Scope seq_scope.

(** Names (labels of the pandas indexes) are compared with [==]. *)
HB.instance Definition _ := hasDecEq.Build string String.eqb_spec.

(** * The model *)

(** ** Python results: exceptions and output *)

Inductive exn : Type :=
| AssertionError
| ValueError
| TypeError
| KeyError
| AttributeError
| IndexError
| ZeroDivisionError
| LinAlgError
| ForwardModelError.

Inductive result (A : Type) : Type :=
| Ok of A
| Raise of exn.

Arguments Raise {A} _.

(** The [print] statements of the module, with their integer and string
    arguments (the formatted floats are left out). *)
Inductive message : Type :=
| Banner
| ResetLowerLimit of string & nat
| ResetUpperLimit of string & nat
| ResetNan of string & nat
| IterationDone of nat
| IterationTimeExceeded of nat
| IterationFulfilled of nat
| IterationDgfZero of nat
| IterationNotFulfilled of nat
| DidNotConverge
| NegativeEigenvalues
| SingularRank of nat & nat.

Inductive event : Type :=
| Warning of string
| Stdout of message.

(** A computation: what it printed or warned, and how it ended. *)
Definition M (A : Type) : Type := (seq event * result A)%type.

Definition ret {A} (a : A) : M A := ([::], Ok a).
Definition raise {A} (e : exn) : M A := ([::], Raise e).
Definition lift {A} (r : result A) : M A := ([::], r).
Definition emit (ev : event) : M unit := ([:: ev], Ok tt).
Definition print (m : message) : M unit := emit (Stdout m).
Definition warn (s : string) : M unit := emit (Warning s).

Definition bind {A B} (m : M A) (f : A -> M B) : M B :=
  match m with
  | (l, Ok a) => let: (l', r) := f a in (l ++ l', r)
  | (l, Raise e) => (l, Raise e)
  end.

Arguments bind : simpl never.

Notation "x <- m ;; k" := (bind m (fun x => k))
  (at level 100, m at next level, right associativity).
Notation "m ;;; k" := (bind m (fun _ => k))
  (at level 100, right associativity).

Definition assert (b : bool) : M unit :=
  if b then ret tt else raise AssertionError.

(** [for a in s: acc = body(acc, a)], stopping at the first exception. *)
Fixpoint foldM {A S} (body : S -> A -> M S) (acc : S) (s : seq A) : M S :=
  if s is a :: s' then (acc' <- body acc a ;; foldM body acc' s')
  else ret acc.

Fixpoint mapM {A B} (f : A -> M B) (s : seq A) : M (seq B) :=
  if s is a :: s' then (b <- f a ;; bs <- mapM f s' ;; ret (b :: bs))
  else ret [::].

Definition raises {A} (m : M A) : bool := if m.2 is Raise _ then true else false.

(** ** float64 scalars, vectors and arrays *)

Definition vec : Type := seq float.

Record ndarray : Type := Arr { ncols : nat; rows : seq vec }.

Definition nrows (A : ndarray) : nat := size (rows A).

Definition of_nat (n : nat) : float :=
  PrimFloat.of_uint63 (Uint63.of_Z (Z.of_nat n)).

(** [np.finfo(np.float64).eps] *)
Definition eps : float := 0x1p-52%float.

Definition zipWith {A B C} (f : A -> B -> C) (s : seq A) (t : seq B) : seq C :=
  [seq f p.1 p.2 | p <- zip s t].

Definition vadd (u v : vec) : vec := zipWith PrimFloat.add u v.
Definition vsub (u v : vec) : vec := zipWith PrimFloat.sub u v.
Definition np_sum (v : vec) : float := foldl PrimFloat.add 0%float v.
Definition vdot (u v : vec) : float := np_sum (zipWith PrimFloat.mul u v).

Definition column (j : nat) (A : ndarray) : vec :=
  [seq nth 0%float r j | r <- rows A].
Definition entry (A : ndarray) (i j : nat) : float :=
  nth 0%float (nth [::] (rows A) i) j.

Definition transpose (A : ndarray) : ndarray :=
  Arr (nrows A) [seq column j A | j <- iota 0 (ncols A)].
Definition dot (A B : ndarray) : ndarray :=
  Arr (ncols B) [seq [seq vdot r (column j B) | j <- iota 0 (ncols B)] | r <- rows A].
Definition matvec (A : ndarray) (v : vec) : vec := [seq vdot r v | r <- rows A].
Definition vecmat (v : vec) (A : ndarray) : vec :=
  [seq vdot v (column j A) | j <- iota 0 (ncols A)].
Definition madd (A B : ndarray) : ndarray :=
  Arr (ncols A) (zipWith vadd (rows A) (rows B)).
Definition msub (A B : ndarray) : ndarray :=
  Arr (ncols A) (zipWith vsub (rows A) (rows B)).
Definition mmap (f : float -> float) (A : ndarray) : ndarray :=
  Arr (ncols A) [seq [seq f a | a <- r] | r <- rows A].
Definition mscale (c : float) (A : ndarray) : ndarray := mmap (PrimFloat.mul c) A.
Definition np_diag (A : ndarray) : vec :=
  [seq entry A i i | i <- iota 0 (minn (nrows A) (ncols A))].
Definition np_trace (A : ndarray) : float := np_sum (np_diag A).
Definition np_identity (n : nat) : ndarray :=
  Arr n [seq [seq (if i == j then 1 else 0)%float | j <- iota 0 n] | i <- iota 0 n].

Definition has_nan (A : ndarray) : bool := has (has PrimFloat.is_nan) (rows A).
Definition all_nan (A : ndarray) : bool := all (all PrimFloat.is_nan) (rows A).
(** [np.zeros_like(A) * np.nan] *)
Definition nan_like (A : ndarray) : ndarray :=
  mmap (fun _ => (0 * PrimFloat.nan)%float) A.
Definition same_shape (A B : ndarray) : bool :=
  (ncols A == ncols B) && ([seq size r | r <- rows A] == [seq size r | r <- rows B]).

(** ** The environment: numpy, scipy, the forward model, the clock *)

Record env : Type := Env {
  (* np.linalg.cond, np.linalg.inv, np.linalg.det, np.log *)
  np_linalg_cond : ndarray -> result float;
  np_linalg_inv : ndarray -> result ndarray;
  np_linalg_det : ndarray -> result float;
  np_log : float -> float;
  (* np.linalg.eig: eigenvalues and right eigenvectors (as columns) *)
  np_linalg_eig : ndarray -> result (vec * ndarray);
  (* scipy.linalg.eig(S, left=True, right=False): eigenvalues and left
     eigenvectors (as columns) *)
  scipy_linalg_eig : ndarray -> result (vec * ndarray);
  (* scipy.stats.chi2.isf(significance, dof) *)
  chi2_isf : float -> nat -> float;
  (* np.linalg.matrix_rank *)
  np_linalg_matrix_rank : ndarray -> result nat;
  (* the forward model, forward(xb, **forwardKwArgs) *)
  forward : vec -> result vec;
  (* time.time() - startTime, as read by the budget test of pass i *)
  elapsed : nat -> float
}.

Definition nan_warning : string := "Found nan in Matrix during inversion".
Definition singular_warning : string := "Found singular matrix".

(** [invertMatrix(A, raise_error=True)], lines 1191-1217.  The array is
    float64, so [np.finfo(A.dtype)] succeeds and the [except] branch is
    not taken. *)
Definition invertMatrix (E : env) (A : ndarray) (raise_error : bool) : M ndarray :=
  if has_nan A then
    (warn nan_warning ;;; ret (nan_like A))
  else
    (c <- lift (np_linalg_cond E A) ;;
     if (1 / eps <? c)%float then
       if raise_error then raise ValueError
       else (warn singular_warning ;;; ret (nan_like A))
     else lift (np_linalg_inv E A)).

(** ** The engine: [class optimalEstimation] *)

(** A Python dict with string keys. *)
Definition dict : Type := seq (string * float).

Fixpoint dict_get (d : dict) (k : string) : option float :=
  if d is (k', v) :: d' then (if k' == k then Some v else dict_get d' k)
  else None.

(** [d[k]] *)
Definition dict_item (d : dict) (k : string) : result float :=
  if dict_get d k is Some v then Ok v else Raise KeyError.

(** The [disturbance] argument: a Python float, a dict, or anything else. *)
Inductive disturbance_t : Type :=
| DFloat of float
| DDict of dict
| DOther.

(** A field that holds [None], [np.nan] or a value. *)
Inductive attr (A : Type) : Type :=
| PyNone
| PyNan
| Val of A.

Arguments PyNone {A}.
Arguments PyNan {A}.

(** The constructor's arguments, fixed for the life of the object. *)
Record config : Type := Config {
  x_vars : seq string;
  x_a : vec;
  S_a : ndarray;
  y_vars : seq string;
  y_obs : vec;
  S_y : ndarray;
  x_truth : vec;
  b_vars : seq string;
  b_p : vec;
  S_b : ndarray;
  x_lowerLimit : dict;
  x_upperLimit : dict;
  useFactorInJac : bool;
  gammaFactor : option (seq float);
  disturbance : disturbance_t;
  convergenceFactor : float
}.

Definition x_n (c : config) : nat := size (x_vars c).
Definition y_n (c : config) : nat := size (y_vars c).
Definition b_n (c : config) : nat := size (b_vars c).
(** [np.sqrt(np.diag(S_a))] and [np.sqrt(np.diag(S_b))], computed once by
    [__init__] from arguments that never change. *)
Definition x_a_err (c : config) : vec := [seq PrimFloat.sqrt v | v <- np_diag (S_a c)].
Definition b_p_err (c : config) : vec := [seq PrimFloat.sqrt v | v <- np_diag (S_b c)].

(** Label lookup in a [pd.Series] with index [idx] and values [v]. *)
Definition loc (idx : seq string) (v : vec) (k : string) : float :=
  nth 0%float v (index k idx).

(** ** [getJacobian], lines 220-302 *)

Definition disturbed (k : string) : string := "disturbed " ++ k.

Definition xb_vars (c : config) : seq string := x_vars c ++ b_vars c.
Definition xb_err (c : config) : vec := x_a_err c ++ b_p_err c.
Definition disturbedKeys (c : config) : seq string := [seq disturbed k | k <- xb_vars c].

(** Lines 246-253. *)
Definition disturbances (c : config) : result dict :=
  match disturbance c with
  | DFloat d => Ok [seq (k, d) | k <- xb_vars c]
  | DDict d => Ok d
  | DOther => Raise TypeError
  end.

(** The value written at line 266 or 269 for the name [k]. *)
Definition perturbed (c : config) (xb : vec) (d : float) (k : string) : float :=
  if useFactorInJac c then (loc (xb_vars c) xb k * d)%float
  else (loc (xb_vars c) xb k + d * loc (xb_vars c) (xb_err c) k)%float.

(** The divisor of lines 288-291. *)
Definition dist (c : config) (xb : vec) (d : float) (k : string) : float :=
  if useFactorInJac c then (loc (xb_vars c) xb k * (d - 1))%float
  else (d * loc (xb_vars c) (xb_err c) k)%float.

(** [A[col_label][row_label] = v] on the rows of a table. *)
Definition set_cell (tbl : seq vec) (r j : nat) (v : float) : seq vec :=
  set_nth [::] tbl r (set_nth 0%float (nth [::] tbl r) j v).

(** One pass of the loop of lines 261-270. *)
Definition disturb_row (c : config) (ds : dict) (xb : vec)
    (tbl : seq vec) (xb_key : string) : M (seq vec) :=
  let r := index (disturbed xb_key) (disturbedKeys c) in
  let tbl1 := set_nth [::] tbl r xb in
  d <- lift (dict_item ds xb_key) ;;
  ret (set_cell tbl1 r (index xb_key (xb_vars c)) (perturbed c xb d xb_key)).

(** [pd.Series(y, index=y_vars)] and a row assignment refuse a wrong length. *)
Definition as_series (n : nat) (y : vec) : result vec :=
  if size y == n then Ok y else Raise ValueError.

(** One pass of the loop of lines 276-278. *)
Definition forward_row (E : env) (c : config) (xbd : seq vec)
    (tbl : seq vec) (xb_dist : string) : M (seq vec) :=
  let r := index xb_dist (disturbedKeys c) in
  y <- lift (forward E (nth [::] xbd r)) ;;
  y' <- lift (as_series (y_n c) y) ;;
  ret (set_nth [::] tbl r y').

(** The body of the inner loop of lines 286-296. *)
Definition jacobian_cell (c : config) (ds : dict) (xb y : vec) (yd : seq vec)
    (y_key : string) (jac : seq vec) (x_key : string) : M (seq vec) :=
  d <- lift (dict_item ds x_key) ;;
  let dst := dist c xb d x_key in
  (if useFactorInJac c then ret tt else assert (negb (dst =? 0)%float)) ;;;
  let cidx := index (disturbed x_key) (disturbedKeys c) in
  let v := ((nth 0 (nth [::] yd cidx) (index y_key (y_vars c))
             - loc (y_vars c) y y_key) / dst)%float in
  ret (set_cell jac (index y_key (y_vars c)) cidx v).

(** Line 298. *)
Definition clean (v : float) : float :=
  if PrimFloat.is_nan v || PrimFloat.is_infinity v then 0%float else v.

(** [jacobian[[labels]]]: the columns with these labels, in this order. *)
Definition select_columns (c : config) (jac : seq vec) (names : seq string) : ndarray :=
  Arr (size names)
      [seq [seq nth 0%float r (index (disturbed s) (disturbedKeys c)) | s <- names]
      | r <- jac].

Record jacobians : Type := Jacobians {
  jacobian_x : ndarray;
  jacobian_b : ndarray;
  new_xb_disturbed : seq vec;   (* what self.xb_disturbed becomes *)
  new_y_disturbed : seq vec     (* what self.y_disturbed becomes *)
}.

Definition getJacobian (E : env) (c : config) (xb y : vec) : M jacobians :=
  assert (~~ (useFactorInJac c && has (fun v => v =? 0)%float xb)) ;;;
  ds <- lift (disturbances c) ;;
  let n := size (xb_vars c) in
  xbd <- foldM (disturb_row c ds xb) (nseq n (nseq n PrimFloat.nan)) (xb_vars c) ;;
  yd <- foldM (forward_row E c xbd) (nseq n (nseq (y_n c) PrimFloat.nan))
          (disturbedKeys c) ;;
  jac <- foldM (fun jac y_key => foldM (jacobian_cell c ds xb y yd y_key) jac (xb_vars c))
           (nseq (y_n c) (nseq n 1%float)) (y_vars c) ;;
  let jac := [seq [seq clean v | v <- r] | r <- jac] in
  ret (Jacobians (select_columns c jac (x_vars c)) (select_columns c jac (b_vars c))
         xbd yd).

(** ** Positions in the tables of [getJacobian] *)

(** The cell of row [r] and column [j]. *)
Definition cell (tbl : seq vec) (r j : nat) : float := nth 0%float (nth [::] tbl r) j.

(** The value of lines 294-296 for the measurement at position [k] and the
    name at position [j]. *)
Definition quotient (c : config) (xb y : vec) (yd : seq vec) (k j : nat) (d : float)
    : float :=
  ((cell yd j k - nth 0 y k) / dist c xb d (nth "" (xb_vars c) j))%float.

Definition finite (v : float) : bool :=
  ~~ PrimFloat.is_nan v && ~~ PrimFloat.is_infinity v.



(** The Jacobian over the concatenated vector: column [j] is column [j] of
    [jacobian_x] for a state name and column [j - x_n] of [jacobian_b] for a
    parameter name. *)
Definition jacobian_entry (c : config) (J : jacobians) (k j : nat) : float :=
  if j < x_n c then entry (jacobian_x J) k j else entry (jacobian_b J) k (j - x_n c).

(** ** The state of the object *)

(** The per-iteration lists.  [doRetrieval] allocates them as [[0]*maxIter]
    and assigns by index; the placeholder [0] is an empty array, an empty
    vector or the number 0.  Before the first run the attributes are [None],
    here the empty list. *)
Record history : Type := History {
  K_i : seq ndarray;
  K_b_i : seq ndarray;
  x_i : seq vec;
  y_i : seq vec;
  dgf_i : seq float;
  H_i : seq float;
  A_i : seq ndarray;
  d_i2 : seq float;
  S_aposterior_i : seq ndarray;
  gam_i : seq float
}.

(** What [doRetrieval] derives when it ends. *)
Record solution : Type := Solution {
  convI : option int;
  x_op : attr vec;
  y_op : attr vec;
  S_op : attr ndarray;
  x_op_err : attr vec;
  dgf : attr float;
  dgf_x : attr vec;
  S_Ep : attr ndarray
}.

(** Attributes written by the diagnostics; [None] where the attribute does
    not exist yet (reading it raises [AttributeError]), except [_y_a], which
    [__init__] sets to [None]. *)
Record diagnostics : Type := Diagnostics {
  y_a_cache : option vec;                      (* self._y_a *)
  linearity : option vec;
  trueLinearity : option float;
  trueLinearityChi2 : option float;
  trueLinearityChi2Critical : option float;
  chi2Results : option (seq (float * float))   (* rows (chi2value, chi2critical) *)
}.

Record engine : Type := Engine {
  cfg : config;
  converged : bool;
  S_a_inv : ndarray;
  xb_disturbed : seq vec;
  y_disturbed : seq vec;
  hist : history;
  sol : solution;
  diag : diagnostics
}.

Definition empty_array : ndarray := Arr 0 [::].

Definition no_history : history :=
  History [::] [::] [::] [::] [::] [::] [::] [::] [::] [::].
Definition no_solution : solution :=
  Solution None PyNone PyNone PyNone PyNone PyNone PyNone PyNone.
Definition no_diagnostics : diagnostics := Diagnostics None None None None None None.

(** [__init__], lines 133-218. *)
Definition init (E : env) (c : config) : M engine :=
  r_a <- lift (np_linalg_matrix_rank E (S_a c)) ;;
  assert (r_a == ncols (S_a c)) ;;;
  r_y <- lift (np_linalg_matrix_rank E (S_y c)) ;;
  assert (r_y == ncols (S_y c)) ;;;
  assert (~~ has PrimFloat.is_nan (x_a c)) ;;;
  assert (~~ has_nan (S_a c)) ;;;
  assert (~~ has_nan (S_y c)) ;;;
  assert (~~ has PrimFloat.is_nan (y_obs c)) ;;;
  lift (as_series (x_n c) (x_a c)) ;;;
  lift (as_series (y_n c) (y_obs c)) ;;;
  assert (b_n c == size (b_p c)) ;;;
  ret (Engine c false empty_array [::] [::] no_history no_solution no_diagnostics).

Definition set_converged (e : engine) (b : bool) : engine :=
  Engine (cfg e) b (S_a_inv e) (xb_disturbed e) (y_disturbed e) (hist e) (sol e) (diag e).
Definition set_diag (e : engine) (d : diagnostics) : engine :=
  Engine (cfg e) (converged e) (S_a_inv e) (xb_disturbed e) (y_disturbed e)
         (hist e) (sol e) d.

(** ** [doRetrieval], lines 304-548 *)

Definition dict_lt (d : dict) (k : string) (v : float) : bool :=
  if dict_get d k is Some lim then (v <? lim)%float else false.
Definition dict_gt (d : dict) (k : string) (v : float) : bool :=
  if dict_get d k is Some lim then (lim <? v)%float else false.

(** [self.x_i[i+1].iloc[jj] = self.x_a.iloc[jj]], after the two prints. *)
Definition reset (c : config) (m : message) (x : vec) (jj : nat) : M vec :=
  print Banner ;;; print m ;;; ret (set_nth 0%float x jj (nth 0%float (x_a c) jj)).

(** The body of the loop of lines 416-445, for the pass [i]. *)
Definition check_component (c : config) (i : nat) (x : vec) (p : nat * string) : M vec :=
  let: (jj, xKey) := p in
  x1 <- (if dict_lt (x_lowerLimit c) xKey (nth 0%float x jj)
         then reset c (ResetLowerLimit xKey i) x jj else ret x) ;;
  x2 <- (if dict_gt (x_upperLimit c) xKey (nth 0%float x1 jj)
         then reset c (ResetUpperLimit xKey i) x1 jj else ret x1) ;;
  if PrimFloat.is_nan (nth 0%float x2 jj)
  then reset c (ResetNan xKey i) x2 jj else ret x2.

Arguments check_component : simpl never.

(** Lines 415-445: [for jj, xKey in enumerate(self.x_vars)]. *)
Definition check_valid (c : config) (i : nat) (x : vec) : M vec :=
  foldM (check_component c i) x (zip (iota 0 (x_n c)) (x_vars c)).

(** What one pass computes before the termination tests (lines 359-452). *)
Record iterate : Type := Iterate {
  it_K : ndarray;
  it_K_b : ndarray;
  it_xb_disturbed : seq vec;
  it_y_disturbed : seq vec;
  it_S_aposterior : ndarray;
  it_A : ndarray;
  it_x : vec;        (* x_i[i+1], after the check of lines 415-445 *)
  it_y : vec;        (* y_i[i+1] *)
  it_dgf : float;
  it_H : float;
  it_d_i2 : float
}.

(** Lines 362-369. *)
Definition effective_covariance (c : config) (K_b : ndarray) : ndarray :=
  if 0 < nrows (S_b c) + ncols (S_b c)
  then madd (S_y c) (dot (dot K_b (S_b c)) (transpose K_b))
  else mmap (fun v => v + 0)%float (S_y c).

(** Lines 386-388, given [S_a_inv], [gam_i[i]], [K], [S_Ep_inv] and [B_inv]. *)
Definition posterior_covariance (Sa_inv : ndarray) (gam : float)
    (K S_Ep_inv B_inv : ndarray) : ndarray :=
  dot (dot B_inv (madd (mscale (gam * gam)%float Sa_inv)
                       (dot (transpose K) (dot S_Ep_inv K))))
      B_inv.

(** Lines 399-402, before the check of lines 415-445. *)
Definition next_state (c : config) (K S_Ep_inv B_inv : ndarray) (x y : vec) : vec :=
  vadd (x_a c)
       (matvec B_inv
          (matvec (transpose K)
             (matvec S_Ep_inv
                (vadd (vsub (y_obs c) y) (matvec K (vsub x (x_a c))))))).

(** Lines 359-452, for the pass [i].  The assertions of lines 372-378
    compare the labels of the frames that [getJacobian] has just built with
    the name lists they were built from; they hold when no name is
    repeated. *)
Definition step (E : env) (e : engine) (i : nat) : M iterate :=
  let c := cfg e in
  let h := hist e in
  let x := nth [::] (x_i h) i in
  let y := nth [::] (y_i h) i in
  let gam := nth 0%float (gam_i h) i in
  J <- getJacobian E c (x ++ b_p c) y ;;
  let K := jacobian_x J in
  let S_Ep := effective_covariance c (jacobian_b J) in
  S_Ep_inv <- invertMatrix E S_Ep true ;;
  let B := madd (mscale gam (S_a_inv e)) (dot (transpose K) (dot S_Ep_inv K)) in
  B_inv <- invertMatrix E B true ;;
  let S_post := posterior_covariance (S_a_inv e) gam K S_Ep_inv B_inv in
  let G := dot B_inv (dot (transpose K) S_Ep_inv) in
  let A := dot G K in
  let x1 := next_state c K S_Ep_inv B_inv x y in
  y1 <- lift (forward E (x1 ++ b_p c)) ;;
  y1 <- lift (as_series (y_n c) y1) ;;
  let dgf := np_trace A in
  det <- lift (np_linalg_det E (msub (np_identity (x_n c)) A)) ;;
  let H := (-0.5 * np_log E det)%float in
  x1 <- check_valid c i x1 ;;
  let dx := vsub x x1 in
  S_post_inv <- invertMatrix E S_post true ;;
  let d2 := vdot (vecmat dx S_post_inv) dx in
  ret (Iterate K (jacobian_b J) (new_xb_disturbed J) (new_y_disturbed J)
               S_post A x1 y1 dgf H d2).

(** The assignments of one pass to the lists. *)
Definition record (h : history) (i : nat) (it : iterate) : history :=
  History (set_nth empty_array (K_i h) i (it_K it))
          (set_nth empty_array (K_b_i h) i (it_K_b it))
          (set_nth [::] (x_i h) i.+1 (it_x it))
          (set_nth [::] (y_i h) i.+1 (it_y it))
          (set_nth 0%float (dgf_i h) i (it_dgf it))
          (set_nth 0%float (H_i h) i (it_H it))
          (set_nth empty_array (A_i h) i (it_A it))
          (set_nth 0%float (d_i2 h) i (it_d_i2 it))
          (set_nth empty_array (S_aposterior_i h) i (it_S_aposterior it))
          (gam_i h).

Definition numerics (E : env) (i : nat) (e : engine) : M engine :=
  it <- step E e i ;;
  ret (Engine (cfg e) (converged e) (S_a_inv e) (it_xb_disturbed it) (it_y_disturbed it)
              (record (hist e) i it) (sol e) (diag e)).

(** How a pass leaves the loop body: by falling through, or by one of the
    three [break] statements. *)
Inductive verdict : Type :=
| Continue
| BreakDone
| BreakTimeExceeded
| BreakDgfZero.

(** [self.y_n/float(self.convergenceFactor)] *)
Definition threshold (c : config) : result float :=
  if (convergenceFactor c =? 0)%float then Raise ZeroDivisionError
  else Ok (of_nat (y_n c) / convergenceFactor c)%float.

(** The test of lines 479-481 on the values of pass [i]. *)
Definition criterion (thr d2 gam : float) : bool :=
  [&& (PrimFloat.abs d2 <? thr)%float, (gam =? 1)%float & ~~ (d2 =? 0)%float].

(** Lines 459-502. *)
Definition control (E : env) (maxTime : float) (i : nat) (e : engine)
    : M (engine * verdict) :=
  let h := hist e in
  if converged e then
    (print (IterationDone i) ;;; ret (e, BreakDone))
  else if (maxTime <? elapsed E i)%float then
    (print (IterationTimeExceeded i) ;;; ret (set_converged e false, BreakTimeExceeded))
  else if i != 0 then
    (thr <- lift (threshold (cfg e)) ;;
     if criterion thr (nth 0%float (d_i2 h) i) (nth 0%float (gam_i h) i) then
       (print (IterationFulfilled i) ;;; ret (set_converged e true, Continue))
     else if (1 < i) && (nth 0%float (dgf_i h) i =? 0)%float then
       (print (IterationDgfZero i) ;;; ret (set_converged e false, BreakDgfZero))
     else
       (print (IterationNotFulfilled i) ;;; ret (e, Continue)))
  else ret (e, Continue).

(** [for i in range(maxIter)], from the pass [i] on, with [n] more passes
    allowed after it.  Returns the last value of [i], the object, and how
    the last pass ended. *)
Fixpoint loop (E : env) (maxTime : float) (n i : nat) (e : engine)
    : M (nat * engine * verdict) :=
  e1 <- numerics E i e ;;
  r <- control E maxTime i e1 ;;
  match r.2, n with
  | Continue, n'.+1 => loop E maxTime n' i.+1 r.1
  | v, _ => ret (i, r.1, v)
  end.

(** Lines 504-514. *)
Definition truncate (h : history) (i : nat) : history :=
  History (take i.+1 (K_i h)) (take i.+1 (K_b_i h))
          (take i.+2 (x_i h)) (take i.+2 (y_i h))
          (take i.+1 (dgf_i h)) (take i.+1 (H_i h)) (take i.+1 (A_i h))
          (take i.+1 (d_i2 h)) (take i.+1 (S_aposterior_i h)) (take i.+1 (gam_i h)).

(** The [else] branch, lines 539-546. *)
Definition undefined_solution : solution :=
  Solution (Some (-9999)%Z) PyNan PyNan PyNan PyNan PyNan PyNan PyNan.

(** The [if self.converged] branch, lines 516-537. *)
Definition accepted_solution (c : config) (h : history) (i : nat) : solution :=
  let K_b := nth empty_array (K_b_i h) i in
  Solution (Some (Posz i))
           (Val (nth [::] (x_i h) i))
           (Val (nth [::] (y_i h) i))
           (Val (nth empty_array (S_aposterior_i h) i))
           (Val [seq PrimFloat.sqrt v | v <- np_diag (nth empty_array (S_aposterior_i h) i)])
           (Val (nth 0%float (dgf_i h) i))
           (Val (np_diag (nth empty_array (A_i h) i)))
           (Val (madd (S_y c) (dot (dot K_b (S_b c)) (transpose K_b)))).

(** Lines 504-548. *)
Definition finalize (i : nat) (e : engine) : engine :=
  let h := truncate (hist e) i in
  Engine (cfg e) (converged e) (S_a_inv e) (xb_disturbed e) (y_disturbed e) h
         (if converged e then accepted_solution (cfg e) h i else undefined_solution)
         (diag e).

(** Lines 331-344. *)
Definition initial_gam (c : config) (maxIter : nat) : M (seq float) :=
  match gammaFactor c with
  | Some (g :: gs) =>
      assert (size (g :: gs) <= maxIter) ;;;
      ret ((g :: gs) ++ nseq (maxIter - size (g :: gs)) 1%float)
  | _ => ret (nseq maxIter 1%float)
  end.

(** Lines 325-355: the object when the loop is entered. *)
Definition prepare (E : env) (maxIter : nat) (x_0 : option vec) (e : engine) : M engine :=
  let c := cfg e in
  assert (0 < maxIter) ;;;
  Sa_inv <- invertMatrix E (S_a c) true ;;
  gam <- initial_gam c maxIter ;;
  x0 <- (if x_0 is Some x then lift (as_series (x_n c) x) else ret (x_a c)) ;;
  y <- lift (forward E (x0 ++ b_p c)) ;;
  y0 <- lift (as_series (y_n c) y) ;;
  let zeros := nseq maxIter empty_array in
  ret (Engine c false Sa_inv (xb_disturbed e) (y_disturbed e)
         (History zeros zeros
            (set_nth [::] (nseq maxIter.+1 [::]) 0 x0)
            (set_nth [::] (nseq maxIter.+1 [::]) 0 y0)
            (nseq maxIter 0%float) (nseq maxIter 0%float) zeros
            (nseq maxIter 0%float) zeros gam)
         (sol e) (diag e)).

(** Lines 325-502: everything up to the end of the loop. *)
Definition iterations (E : env) (maxIter : nat) (x_0 : option vec) (maxTime : float)
    (e : engine) : M (nat * engine * verdict) :=
  e0 <- prepare E maxIter x_0 e ;;
  loop E maxTime maxIter.-1 0 e0.

(** [doRetrieval(maxIter, x_0, maxTime)]: the object afterwards and the
    returned flag. *)
Definition doRetrieval (E : env) (maxIter : nat) (x_0 : option vec) (maxTime : float)
    (e : engine) : M (engine * bool) :=
  r <- iterations E maxIter x_0 maxTime e ;;
  let e' := finalize r.1.1 r.1.2 in
  ret (e', converged e').

(** ** Predicates on states, histories and runs *)

Definition is_stdout (ev : event) : bool := if ev is Stdout _ then true else false.

(** The component at position [jj], named [xKey], undercuts its lower
    limit, exceeds its upper limit, or is NaN. *)
Definition violates_as (c : config) (x : vec) (jj : nat) (xKey : string) : bool :=
  [|| dict_lt (x_lowerLimit c) xKey (nth 0%float x jj),
      dict_gt (x_upperLimit c) xKey (nth 0%float x jj)
    | PrimFloat.is_nan (nth 0%float x jj)].

Definition violates (c : config) (x : vec) (jj : nat) : bool :=
  violates_as c x jj (nth "" (x_vars c) jj).

(** The convergence criterion of lines 478-481 held in pass [k], read off
    the recorded history. *)
Definition satisfied (c : config) (h : history) (k : nat) : bool :=
  (k != 0)
  && criterion (of_nat (y_n c) / convergenceFactor c)%float
               (nth 0%float (d_i2 h) k) (nth 0%float (gam_i h) k).

(** The pass [j] was the last one: the lists of [e'] are those of the
    object [e_in] that entered the pass, with the results of the pass
    assigned. *)
Definition last_pass (E : env) (j : nat) (e' : engine) : Prop :=
  exists e_in it l,
    [/\ step E e_in j = (l, Ok it),
        hist e' = record (hist e_in) j it,
        cfg e_in = cfg e'
      & S_a_inv e_in = S_a_inv e'].

(** How the loop ended, in terms of the recorded history. *)
Definition ending (j : nat) (e' : engine) (v : verdict) : Prop :=
  match v with
  | BreakDone => [/\ converged e', 1 < j & satisfied (cfg e') (hist e') j.-1]
  | Continue =>
      converged e' = satisfied (cfg e') (hist e') j
      /\ ~~ satisfied (cfg e') (hist e') j.-1
  | BreakTimeExceeded => ~~ converged e'
  | BreakDgfZero => ~~ converged e' /\ 1 < j
  end.

(** [K], [K_b], [S] and [A] are the Jacobians, the posterior covariance and
    the averaging kernel of lines 359-396 evaluated at the state [x] with
    its measurement [y]. *)
Definition evaluated_at (E : env) (c : config) (Sa_inv : ndarray) (gam : float)
    (x y : vec) (K K_b S A : ndarray) : Prop :=
  exists J S_Ep_inv B_inv l1 l2 l3,
    [/\ getJacobian E c (x ++ b_p c) y = (l1, Ok J),
        K = jacobian_x J /\ K_b = jacobian_b J,
        invertMatrix E (effective_covariance c K_b) true = (l2, Ok S_Ep_inv),
        invertMatrix E (madd (mscale gam Sa_inv)
                             (dot (transpose K) (dot S_Ep_inv K))) true
          = (l3, Ok B_inv)
      & S = posterior_covariance Sa_inv gam K S_Ep_inv B_inv
        /\ A = dot (dot B_inv (dot (transpose K) S_Ep_inv)) K].

(** ** The generalized chi-square test, lines 1272-1342 *)

(** [_estimateChi2(S, z, atol)].  The covariance is symmetric, so the
    eigenvalues and the left eigenvectors that [scipy.linalg.eig] returns
    have no imaginary part; they are read as float64. *)
Definition _estimateChi2 (E : env) (S : ndarray) (z : vec) (atol : float)
    : M (vec * nat) :=
  r <- lift (scipy_linalg_eig E S) ;;
  let: (eigVals, eigVecsL) := r in
  let z_prime := matvec (transpose eigVecsL) z in
  let notNull := [seq (atol <? PrimFloat.abs ev)%float | ev <- eigVals] in
  let dofs := count id notNull in
  (if dofs != size notNull then print (SingularRank dofs (size notNull)) else ret tt) ;;;
  let chi2s := zipWith (fun zp ev => zp * zp / ev)%float
                       (mask notNull z_prime) (mask notNull eigVals) in
  ret (chi2s, dofs).

(** [_testChi2(S, z, significance, atol)]; [np.real_if_close] returns a
    real number unchanged. *)
Definition _testChi2 (E : env) (S : ndarray) (z : vec) (significance atol : float)
    : M (float * float) :=
  r <- _estimateChi2 E S z atol ;;
  let: (chi2s_obs, dof) := r in
  let chi2_obs := np_sum chi2s_obs in
  let chi2_theo := chi2_isf E significance dof in
  ret (chi2_obs, chi2_theo).

(** The pairs (projected component, eigenvalue) that are kept. *)
Definition retained (atol : float) (z_prime eigVals : vec) : seq (float * float) :=
  [seq p <- zip z_prime eigVals | (atol <? PrimFloat.abs p.2)%float].

(** ** The diagnostics, lines 550-939 *)

(** Reading an attribute that may not exist. *)
Definition get_attr {A} (a : option A) : result A :=
  if a is Some v then Ok v else Raise AttributeError.

(** [s[self.convI]] on a Python list. *)
Definition at_convI {A} (d : A) (s : seq A) (e : engine) : result A :=
  match convI (sol e) with
  | Some (Posz i) => if i < size s then Ok (nth d s i) else Raise IndexError
  | Some (Negz k) => if k < size s then Ok (nth d s (size s - k.+1)) else Raise IndexError
  | None => Raise TypeError
  end.

(** [self.S_Ep.values]: neither [None] nor [np.nan] has [values]. *)
Definition S_Ep_values (e : engine) : result ndarray :=
  if S_Ep (sol e) is Val A then Ok A else Raise AttributeError.

(** The property [y_a], lines 550-559: computed once, then cached. *)
Definition y_a (E : env) (e : engine) : M (engine * vec) :=
  let d := diag e in
  if y_a_cache d is Some y then ret (e, y)
  else
    (y <- lift (forward E (x_a (cfg e) ++ b_p (cfg e))) ;;
     y <- lift (as_series (y_n (cfg e)) y) ;;
     ret (set_diag e (Diagnostics (Some y) (linearity d) (trueLinearity d)
                        (trueLinearityChi2 d) (trueLinearityChi2Critical d)
                        (chi2Results d)), y)).

(** Lines 712-750. *)
Definition chiSquareTestYOptimalObservation (E : env) (e : engine)
    (significance atol : float) : M (float * float) :=
  assert (converged e) ;;;
  let Sa := S_a (cfg e) in
  Sep <- lift (S_Ep_values e) ;;
  K <- lift (at_convI empty_array (K_i (hist e)) e) ;;
  KSaKSep_inv <- invertMatrix E (madd (dot (dot K Sa) (transpose K)) Sep) true ;;
  let S_deyd := dot (dot Sep KSaKSep_inv) Sep in
  y_conv <- lift (at_convI [::] (y_i (hist e)) e) ;;
  let delta_y := vsub y_conv (y_obs (cfg e)) in
  _testChi2 E S_deyd delta_y significance atol.

(** Lines 752-788. *)
Definition chiSquareTestYObservationPrior (E : env) (e : engine)
    (significance atol : float) : M (engine * (float * float)) :=
  assert (converged e) ;;;
  r <- y_a E e ;;
  let: (e1, ya) := r in
  let delta_y := vsub (y_obs (cfg e)) ya in
  let Sa := S_a (cfg e) in
  Sep <- lift (S_Ep_values e) ;;
  K <- lift (at_convI empty_array (K_i (hist e)) e) ;;
  let KSaKSep := madd (dot (dot K Sa) (transpose K)) Sep in
  res <- _testChi2 E KSaKSep delta_y significance atol ;;
  ret (e1, res).

(** Lines 790-865. *)
Definition chiSquareTestYOptimalPrior (E : env) (e : engine)
    (significance atol : float) : M (engine * (float * float)) :=
  assert (converged e) ;;;
  y_conv <- lift (at_convI [::] (y_i (hist e)) e) ;;
  r <- y_a E e ;;
  let: (e1, ya) := r in
  let delta_y := vsub y_conv ya in
  let Sa := S_a (cfg e) in
  S_ep <- lift (S_Ep_values e) ;;
  K <- lift (at_convI empty_array (K_i (hist e)) e) ;;
  let KSaK := dot (dot K Sa) (transpose K) in
  KSaKSep_inv <- invertMatrix E (madd KSaK S_ep) true ;;
  let Syd := dot (dot KSaK KSaKSep_inv) KSaK in
  res <- _testChi2 E Syd delta_y significance atol ;;
  ret (e1, res).

(** [self.x_op - self.x_a]: [np.nan] minus a series is a series of NaN. *)
Definition x_op_minus_x_a (e : engine) : result vec :=
  match x_op (sol e) with
  | Val x => Ok (vsub x (x_a (cfg e)))
  | PyNan => Ok [seq (PrimFloat.nan - v)%float | v <- x_a (cfg e)]
  | PyNone => Raise TypeError
  end.

(** Lines 867-939. *)
Definition chiSquareTestXOptimalPrior (E : env) (e : engine)
    (significance atol : float) : M (float * float) :=
  assert (converged e) ;;;
  delta_x <- lift (x_op_minus_x_a e) ;;
  let Sa := S_a (cfg e) in
  K <- lift (at_convI empty_array (K_i (hist e)) e) ;;
  S_ep <- lift (S_Ep_values e) ;;
  KSaKSep_inv <- invertMatrix E (madd (dot (dot K Sa) (transpose K)) S_ep) true ;;
  let Sxd := dot (dot (dot (dot Sa (transpose K)) KSaKSep_inv) K) Sa in
  _testChi2 E Sxd delta_x significance atol.

(** [atol], the default value of the four tests. *)
Definition default_atol : float := 1e-5%float.

(** [chiSquareTest(significance)], lines 641-710: the object afterwards and
    the three returned columns. *)
Definition chiSquareTest (E : env) (e : engine) (significance : float)
    : M (engine * (seq bool * seq float * seq float)) :=
  e1 <- (if ~~ converged e then
           (* the frame of NaN built at lines 680-684 is not kept *)
           (print DidNotConverge ;;; ret e)
         else
           (r1 <- chiSquareTestYOptimalObservation E e significance default_atol ;;
            r2 <- chiSquareTestYObservationPrior E e significance default_atol ;;
            r3 <- chiSquareTestYOptimalPrior E r2.1 significance default_atol ;;
            r4 <- chiSquareTestXOptimalPrior E r3.1 significance default_atol ;;
            let d := diag r3.1 in
            ret (set_diag r3.1
                   (Diagnostics (y_a_cache d) (linearity d) (trueLinearity d)
                      (trueLinearityChi2 d) (trueLinearityChi2Critical d)
                      (Some [:: r1; r2.2; r3.2; r4]))))) ;;
  res <- lift (get_attr (chi2Results (diag e1))) ;;
  let passed := [seq (r.1 <? r.2)%float | r <- res] in
  ret (e1, (passed, [seq r.1 | r <- res], [seq r.2 | r <- res])).

(** What [linearityTest] returns: two values at lines 606 and 614, three at
    line 638. *)
Inductive linearity_out : Type :=
| LinearityEarly of vec & float
| LinearityFull of vec & float & float.

(** [np.isclose(v, 0)] with numpy's default tolerances. *)
Definition isclose0 (v : float) : bool := (PrimFloat.abs v <=? 1e-8)%float.

(** Lines 616-623 and 629-633: the linearisation error for the state [x_hat]. *)
Definition linearization_error (E : env) (c : config) (K S_Ep_inv : ndarray)
    (x_conv y_conv x_hat : vec) : M (vec * float) :=
  y_hat <- lift (forward E (x_hat ++ b_p c)) ;;
  let del_y := vsub (vsub y_hat y_conv) (matvec K (vsub x_hat x_conv)) in
  ret (del_y, vdot (vecmat del_y S_Ep_inv) del_y).

(** [linearityTest(maxErrorPatterns, significance, atol)], lines 561-639.
    [self.x_truth] is the series that [__init__] built, never [None], so
    the branch of line 628 is always taken. *)
Definition linearityTest (E : env) (e : engine) (maxErrorPatterns : option nat)
    (significance atol : float) : M (engine * linearity_out) :=
  let c := cfg e in
  let h := hist e in
  let d := diag e in
  let nans := nseq (x_n c) (0 * PrimFloat.nan)%float in
  let e1 := set_diag e (Diagnostics (y_a_cache d) (Some nans) (trueLinearity d)
                          (Some PrimFloat.nan) (Some PrimFloat.nan) (chi2Results d)) in
  if ~~ converged e then
    (print DidNotConverge ;;;
     t <- lift (get_attr (trueLinearity d)) ;;
     ret (e1, LinearityEarly nans t))
  else
    (S <- lift (at_convI empty_array (S_aposterior_i h) e) ;;
     r <- lift (np_linalg_eig E S) ;;
     let: (lamb, II) := r in
     S_Ep_inv <- invertMatrix E (S_y c) true ;;
     let lamb := [seq (if isclose0 v then 0%float else v) | v <- lamb] in
     if has (fun v => v <? 0)%float lamb then
       (print NegativeEigenvalues ;;;
        t <- lift (get_attr (trueLinearity d)) ;;
        ret (e1, LinearityEarly nans t))
     else
       (let error_pattern :=
          Arr (ncols II)
              [seq zipWith PrimFloat.mul [seq PrimFloat.sqrt v | v <- lamb] r
              | r <- rows II] in
        x_conv <- lift (at_convI [::] (x_i h) e) ;;
        y_conv <- lift (at_convI [::] (y_i h) e) ;;
        K <- lift (at_convI empty_array (K_i h) e) ;;
        lin <- mapM (fun hh =>
                 r <- linearization_error E c K S_Ep_inv x_conv y_conv
                        (vadd x_conv (column hh error_pattern)) ;;
                 ret r.2) (iota 0 (x_n c)) ;;
        let sorted := sort (fun a b => b <=? a)%float lin in
        let lin := if maxErrorPatterns is Some m then take m sorted else sorted in
        r <- linearization_error E c K S_Ep_inv x_conv y_conv (x_truth c) ;;
        res <- _testChi2 E (S_y c) r.1 significance atol ;;
        ret (set_diag e (Diagnostics (y_a_cache d) (Some lin) (Some r.2)
                           (Some res.1) (Some res.2) (chi2Results d)),
             LinearityFull lin res.1 res.2))).

(** A diagnostics operation is graceful when it prints the notice and
    returns. *)
Definition graceful {A} (m : M A) : Prop :=
  m.1 = [:: Stdout DidNotConverge] /\ ~~ raises m.

(** ** A one-dimensional problem

    numpy and scipy on arrays of shape (1, 1), and the problem
    [x_a = 0], [S_a = [[1]]], [y_obs = [2]], [S_y = [[0.01]]] with the
    default disturbance 0.1 and convergence factor 10. *)
Module OneD.

Definition scalar (A : ndarray) : option float :=
  if A is Arr 1 [:: [:: a]] then Some a else None.
Definition array (a : float) : ndarray := Arr 1 [:: [:: a]].

Definition cond (A : ndarray) : result float :=
  if scalar A is Some a then
    if (a =? 0)%float then Ok PrimFloat.infinity
    else if PrimFloat.is_infinity a then Raise LinAlgError
    else Ok 1%float
  else Raise LinAlgError.
Definition inv (A : ndarray) : result ndarray :=
  if scalar A is Some a then
    if (a =? 0)%float then Raise LinAlgError else Ok (array (1 / a)%float)
  else Raise LinAlgError.
Definition det (A : ndarray) : result float :=
  if scalar A is Some a then Ok a else Raise LinAlgError.
Definition eig (A : ndarray) : result (vec * ndarray) :=
  if scalar A is Some a then Ok ([:: a], array 1%float) else Raise LinAlgError.
Definition matrix_rank (A : ndarray) : result nat :=
  if scalar A is Some a then Ok (if (a =? 0)%float then 0 else 1)
  else Raise LinAlgError.
(** The first terms of [2 atanh((x-1)/(x+1))]; [H_i] takes no part in the
    control flow. *)
Definition log (x : float) : float :=
  let t := ((x - 1) / (x + 1))%float in
  (2 * (t + t * t * t / 3 + t * t * t * t * t / 5))%float.
(** [chi2.isf(0.05, 1)], and [nan] for zero degrees of freedom. *)
Definition isf (significance : float) (dof : nat) : float :=
  if dof == 1 then 3.841458820694124%float else PrimFloat.nan.

(** The environment for the forward model [y = f(x)], with a clock that
    stands still. *)
Definition environment (f : float -> float) : env :=
  Env cond inv det log eig eig isf matrix_rank
      (fun xb => Ok [:: f (nth 0%float xb 0)]) (fun _ => 0%float).

Definition problem : config :=
  Config [:: "x"] [:: 0%float] (array 1) [:: "y"] [:: 2%float] (array 0.01%float)
         [:: PrimFloat.nan] [::] [::] (Arr 0 [::]) [::] [::] false None
         (DFloat 0.1%float) 10%float.

(** The object that [__init__] returns. *)
Definition fresh (c : config) : engine :=
  Engine c false empty_array [::] [::] no_history no_solution no_diagnostics.

Definition identity (x : float) : float := x.
Definition mild (x : float) : float := (x + 0.001 * x * x)%float.

Definition maxTime : float := 1e7%float.

Definition bounded : config :=
  Config [:: "x"] [:: 0.5%float] (array 1) [:: "y"] [:: 2%float] (array 0.01%float)
         [:: PrimFloat.nan] [::] [::] (Arr 0 [::]) [:: ("x", 0%float)] [::] false None
         (DFloat 0.1%float) 10%float.


End OneD.

(** ** Shapes and frames of a run *)

(** The per-iteration lists hold [n] entries each, and [x_i] and [y_i] one
    more. *)
Definition well_sized (n : nat) (h : history) : bool :=
  [&& size (K_i h) == n, size (K_b_i h) == n, size (x_i h) == n.+1,
      size (y_i h) == n.+1, size (dgf_i h) == n, size (H_i h) == n,
      size (A_i h) == n, size (d_i2 h) == n, size (S_aposterior_i h) == n
    & size (gam_i h) == n].

(** The object with other values of the attributes that [doRetrieval]
    overwrites before it reads them: [xb_disturbed], [y_disturbed] and the
    solution. *)
Definition with_scratch (xbd yd : seq vec) (s : solution) (e : engine) : engine :=
  Engine (cfg e) (converged e) (S_a_inv e) xbd yd (hist e) s (diag e).

Definition with_sol (s : solution) (e : engine) : engine :=
  with_scratch (xb_disturbed e) (y_disturbed e) s e.

(** The result of a computation, transformed. *)
Definition fmap {A B} (f : A -> B) (m : M A) : M B :=
  (m.1, match m.2 with Ok a => Ok (f a) | Raise x => Raise x end).

(** ** [summarize] and [summary], lines 1083-1169 *)

(** The values of the summary: a [pd.Series] with its index, a
    [pd.DataFrame] by its values, a float, an int. *)
Inductive value : Type :=
| Series of seq string & vec
| Frame of ndarray
| Float of float
| Int of int.

(** A Python dict of summary entries, in insertion order. *)
Definition summary_dict : Type := seq (string * value).

(** [d[k] = v]: a key that exists keeps its place. *)
Fixpoint set_item (d : summary_dict) (k : string) (v : value) : summary_dict :=
  if d is (k', v') :: d' then
    if k' == k then (k, v) :: d' else (k', v') :: set_item d' k v
  else [:: (k, v)].

Fixpoint get_item (d : summary_dict) (k : string) : option value :=
  if d is (k', v) :: d' then (if k' == k then Some v else get_item d' k)
  else None.

(** The index of [chi2Results], lines 666-671. *)
Definition chi2names : seq string :=
  [:: "Y_Optimal_vs_Observation"; "Y_Observation_vs_Prior";
      "Y_Optimal_vs_Prior"; "X_Optimal_vs_Prior"].

(** An attribute that must hold a pandas object: neither [None] nor
    [np.nan] has [rename_axis]. *)
Definition pandas_of {A} (a : attr A) : result A :=
  if a is Val v then Ok v else Raise AttributeError.

(** How [summarize] ends when it raises no exception of [exn]: by
    [raise RuntimeError], with the dict, or with the [xr.Dataset] made of
    it. *)
Inductive summarized (X : Type) : Type :=
| RuntimeError
| AsDict of summary_dict
| AsDataset of X.

Arguments RuntimeError {X}.
Arguments AsDict {X} _.

Section Summarize.

(** [xr.Dataset(summary)], and [pd.concat((A, B), sort=False)] on two
    frames, are external. *)
Variable X : Type.
Variable xr_Dataset : summary_dict -> result X.
Variable pd_concat : ndarray -> ndarray -> ndarray.

(** Lines 1108-1137: [rename_axis] names the index and leaves the values.
    No code sets an attribute [nonlinearity], so the entry of line 1127 is
    never made. *)
Definition summary_results (e : engine) : M summary_dict :=
  let c := cfg e in
  let d := diag e in
  let s := sol e in
  let summary := set_item [::] "x_a" (Series (x_vars c) (x_a c)) in
  let summary := set_item summary "x_a_err" (Series (x_vars c) (x_a_err c)) in
  let summary := set_item summary "S_a" (Frame (S_a c)) in
  v <- lift (pandas_of (x_op s)) ;;
  let summary := set_item summary "x_op" (Series (x_vars c) v) in
  v <- lift (pandas_of (x_op_err s)) ;;
  let summary := set_item summary "x_op_err" (Series (x_vars c) v) in
  v <- lift (pandas_of (S_op s)) ;;
  let summary := set_item summary "S_op" (Frame v) in
  v <- lift (pandas_of (dgf_x s)) ;;
  let summary := set_item summary "dgf_x" (Series (x_vars c) v) in
  let summary := set_item summary "y_obs" (Series (y_vars c) (y_obs c)) in
  let summary := set_item summary "S_y" (Frame (S_y c)) in
  v <- lift (pandas_of (y_op s)) ;;
  let summary := set_item summary "y_op" (Series (y_vars c) v) in
  let summary := set_item summary "x_truth" (Series (x_vars c) (x_truth c)) in
  summary <- (if trueLinearityChi2 d is Some t then
                tc <- lift (get_attr (trueLinearityChi2Critical d)) ;;
                ret (set_item (set_item summary "trueLinearityChi2" (Float t))
                              "trueLinearityChi2Critical" (Float tc))
              else ret summary) ;;
  let summary :=
    if chi2Results d is Some res then
      set_item (set_item summary "chi2value" (Series chi2names [seq r.1 | r <- res]))
               "chi2critical" (Series chi2names [seq r.2 | r <- res])
    else summary in
  g <- lift (at_convI 0%float (dgf_i (hist e)) e) ;;
  let summary := set_item summary "dgf" (Float g) in
  i <- lift (if convI s is Some i then Ok i else Raise TypeError) ;;
  ret (set_item summary "convergedIteration" (Int i)).

(** [pd.concat((s, t))] of a summary entry with a series, and
    [pd.concat((A, B), sort=False)] of one with a frame. *)
Definition concat_series (v : value) (idx : seq string) (x : vec) : result value :=
  if v is Series idx0 x0 then Ok (Series (idx0 ++ idx) (x0 ++ x)) else Raise TypeError.

Definition concat_frame (v : value) (B : ndarray) : result value :=
  if v is Frame A then Ok (Frame (pd_concat A B)) else Raise TypeError.

(** [summary[k]] *)
Definition item (summary : summary_dict) (k : string) : result value :=
  if get_item summary k is Some v then Ok v else Raise KeyError.

(** Lines 1139-1163. *)
Definition summary_parameters (e : engine) (combineXB : bool) (summary : summary_dict)
    : M summary_dict :=
  let c := cfg e in
  if ~~ combineXB && (0 < size (b_vars c)) then
    let summary := set_item summary "b_p" (Series (b_vars c) (b_p c)) in
    let summary := set_item summary "S_b" (Frame (S_b c)) in
    ret (set_item summary "b_p_err" (Series (b_vars c) (b_p_err c)))
  else if combineXB && (0 < size (b_vars c)) then
    v <- lift (item summary "x_a") ;;
    v <- lift (concat_series v (b_vars c) (b_p c)) ;;
    let summary := set_item summary "x_a" v in
    v <- lift (item summary "x_op") ;;
    v <- lift (concat_series v (b_vars c) (b_p c)) ;;
    let summary := set_item summary "x_op" v in
    v <- lift (item summary "x_op_err") ;;
    v <- lift (concat_series v (b_vars c) (b_p_err c)) ;;
    let summary := set_item summary "x_op_err" v in
    v <- lift (item summary "dgf_x") ;;
    v <- lift (concat_series v (b_vars c) (nseq (b_n c) 0%float)) ;;
    let summary := set_item summary "dgf_x" v in
    v <- lift (item summary "S_a") ;;
    v <- lift (concat_frame v (S_b c)) ;;
    let summary := set_item summary "S_a" v in
    v <- lift (item summary "S_op") ;;
    v <- lift (concat_frame v (S_b c)) ;;
    ret (set_item summary "S_op" v)
  else ret summary.

(** [summarize(returnXarray, combineXB)], lines 1087-1169.  [None < 0]
    is a [TypeError]. *)
Definition summarize (e : engine) (returnXarray combineXB : bool) : M (summarized X) :=
  match convI (sol e) with
  | None => raise TypeError
  | Some (Negz _) => ret RuntimeError
  | Some (Posz _) =>
      summary <- summary_results e ;;
      summary <- summary_parameters e combineXB summary ;;
      if returnXarray then (ds <- lift (xr_Dataset summary) ;; ret (AsDataset ds))
      else ret (AsDict summary)
  end.

(** [summary], lines 1083-1085, with its positional and keyword
    arguments.  The warning object of line 1084 is made and dropped.  The
    call of line 1085 passes the object itself as the first positional
    argument after [self], so it binds the object, which counts as true,
    to [returnXarray] and the first argument of [summary] to [combineXB];
    a second argument is one too many, and a keyword that names a
    parameter already bound is refused.  An argument is given by its truth
    value. *)
Definition summary (e : engine) (args : seq bool)
    (kw_returnXarray kw_combineXB : option bool) : M (summarized X) :=
  match args, kw_returnXarray, kw_combineXB with
  | [::], None, None => summarize e true false
  | [::], None, Some b => summarize e true b
  | [:: a], None, None => summarize e true a
  | _, _, _ => raise TypeError
  end.

End Summarize.

(** ** [_oeDict2Object], lines 1220-1246 *)

(** An argument of the constructor as it comes: one-dimensional (a list, an
    array, a [pd.Series]) or two-dimensional. *)
Inductive pyarray : Type :=
| Vector of vec
| Matrix of ndarray.

(** [np.linalg.matrix_rank]: an array of fewer than two dimensions has
    rank 1, unless all its entries are 0. *)
Definition matrix_rank (E : env) (a : pyarray) : result nat :=
  match a with
  | Vector v => Ok (if all (fun x => x =? 0)%float v then 0 else 1)
  | Matrix A => np_linalg_matrix_rank E A
  end.

(** [a.shape[-1]] *)
Definition last_axis (a : pyarray) : nat :=
  match a with Vector v => size v | Matrix A => ncols A end.

(** [np.any(np.isnan(a))] *)
Definition any_nan (a : pyarray) : bool :=
  match a with Vector v => has PrimFloat.is_nan v | Matrix A => has_nan A end.

(** The initial tests of [__init__], lines 155-160, on the arguments as
    they come. *)
Definition initial_tests (E : env) (x_a S_a S_y y_obs : pyarray) : M unit :=
  r_a <- lift (matrix_rank E S_a) ;;
  assert (r_a == last_axis S_a) ;;;
  r_y <- lift (matrix_rank E S_y) ;;
  assert (r_y == last_axis S_y) ;;;
  assert (~~ any_nan x_a) ;;;
  assert (~~ any_nan S_a) ;;;
  assert (~~ any_nan S_y) ;;;
  assert (~~ any_nan y_obs).

(** What [_oeDict2Object] does first, for the saved attributes of an
    object: the constructor call of lines 1235-1243 passes the saved [S_y]
    in the place of [y_obs] and the saved [y_obs] in the place of [S_y],
    and the constructor begins with its initial tests. *)
Definition oeDict2Object_tests (E : env) (saved : config) : M unit :=
  initial_tests E (Vector (x_a saved)) (Matrix (S_a saved))
                  (Vector (y_obs saved)) (Matrix (S_y saved)).

(** ** Further cases of the one-dimensional problem *)
Module Cases.

Import OneD.

(** What a computation returned, or [d] if it raised. *)
Definition value_of {A} (d : A) (m : M A) : A := if m.2 is Ok a then a else d.

(** The object after [doRetrieval(maxIter=5)] with [y = x + 0.001 x^2]. *)
Definition converged_object : engine :=
  (value_of (fresh problem, false)
     (doRetrieval (environment mild) 5 None maxTime (fresh problem))).1.

(** The same object after [chiSquareTest()], with the three columns that
    the call returned. *)
Definition tested : engine * (seq bool * seq float * seq float) :=
  value_of (converged_object, ([::], [::], [::]))
    (chiSquareTest (environment mild) converged_object 0.05%float).

(** The same object after [linearityTest()]. *)
Definition linearised : engine * linearity_out :=
  value_of (converged_object, LinearityEarly [::] 0%float)
    (linearityTest (environment mild) converged_object (Some 10) 0.05%float 1e-5%float).

(** The problem with a multiplicative disturbance of factor 1. *)
Definition unit_factor : config :=
  Config [:: "x"] [:: 0%float] (array 1) [:: "y"] [:: 2%float] (array 0.01%float)
         [:: PrimFloat.nan] [::] [::] (Arr 0 [::]) [::] [::] true None
         (DFloat 1%float) 10%float.

(** The problem with a [disturbance] dict that names no variable. *)
Definition no_disturbance : config :=
  Config [:: "x"] [:: 0%float] (array 1) [:: "y"] [:: 2%float] (array 0.01%float)
         [:: PrimFloat.nan] [::] [::] (Arr 0 [::]) [::] [::] false None
         (DDict [::]) 10%float.

(** The problem with three damping factors. *)
Definition damped : config :=
  Config [:: "x"] [:: 0%float] (array 1) [:: "y"] [:: 2%float] (array 0.01%float)
         [:: PrimFloat.nan] [::] [::] (Arr 0 [::]) [::] [::] false
         (Some [:: 4%float; 2%float; 1%float]) (DFloat 0.1%float) 10%float.

(** A converged object whose posterior covariance is [[-1]]. *)
Definition negative_posterior : engine :=
  Engine problem true (array 1) [::] [::]
         (History [:: array 1] [:: Arr 0 [:: [::]]] [:: [:: 0%float]; [:: 1%float]]
                  [:: [:: 0%float]; [:: 1%float]] [:: 1%float] [:: 0%float]
                  [:: array 1] [:: 0.05%float] [:: array (-1)] [:: 1%float])
         (Solution (Some (Posz 0)) (Val [:: 0%float]) (Val [:: 0%float])
                   (Val (array (-1))) (Val [:: PrimFloat.nan]) (Val 1%float)
                   (Val [:: 1%float]) (Val (array 0.01%float)))
         no_diagnostics.

(** Saved attributes with two measurements. *)
Definition two_measurements : config :=
  Config [:: "x"] [:: 0%float] (array 1) [:: "y1"; "y2"] [:: 2%float; 3%float]
         (Arr 2 [:: [:: 0.01%float; 0%float]; [:: 0%float; 0.01%float]])
         [:: PrimFloat.nan] [::] [::] (Arr 0 [::]) [::] [::] false None
         (DFloat 0.1%float) 10%float.

(** Stand-ins for [xr.Dataset] and for [pd.concat] on frames. *)
Definition dataset (summary : summary_dict) : result (seq string) :=
  Ok [seq kv.1 | kv <- summary].

Definition stack (A B : ndarray) : ndarray := Arr (ncols A) (rows A ++ rows B).

End Cases.

(** ** Signs of float64 values *)

(** The value is not NaN and its sign bit is clear: [+0], a positive
    number or [+inf]. *)
Definition sign_clear (x : spec_float) : bool :=
  match x with
  | S754_nan => false
  | S754_zero s | S754_infinity s | S754_finite s _ _ => ~~ s
  end.

Definition nonnegative (v : float) : bool := sign_clear (Prim2SF v).

(** The value is [+0] or [-0]. *)
Definition is_zero (v : float) : bool :=
  if Prim2SF v is S754_zero _ then true else false.

(** A positive number that is not [+inf]. *)
Definition positive_finite (v : float) : bool :=
  (0 <? v)%float && (v <? PrimFloat.infinity)%float.

Definition nonneg_Z (m : Z) : bool := if m is Zneg _ then false else true.

Module Roots.

Import OneD.


End Roots.

(** * Properties *)

(** ** Reasoning about computations *)

Lemma bindP {A B} (m : M A) (f : A -> M B) l b :
  bind m f = (l, Ok b) ->
  exists l1 a l2, [/\ m = (l1, Ok a), f a = (l2, Ok b) & l = l1 ++ l2].
Proof.
case: m => l1 [a|e]; rewrite /bind //; case Hf: (f a) => [l2 r] [<- Hr].
by exists l1, a, l2; rewrite Hf Hr.
Qed.

Lemma bind_ret {A B} (a : A) (f : A -> M B) : bind (ret a) f = f a.
Proof. by rewrite /bind /ret; case: (f a). Qed.

Lemma bind_lift {A B} (r : result A) (f : A -> M B) :
  bind (lift r) f = match r with Ok a => f a | Raise e => ([::], Raise e) end.
Proof. by case: r => [a|e] //; apply: bind_ret. Qed.

Lemma bind_assert {B} (b : bool) (f : unit -> M B) :
  bind (assert b) f = if b then f tt else ([::], Raise AssertionError).
Proof. by case: b; rewrite /assert ?bind_ret. Qed.

Lemma bind_emit {B} (ev : event) (f : unit -> M B) :
  bind (emit ev) f = ((ev :: (f tt).1), (f tt).2).
Proof. by rewrite /bind /emit; case: (f tt). Qed.




(** An invariant of a loop: it holds of the names done so far. *)
Lemma foldM_inv {A S} (body : S -> A -> M S) (P : seq A -> S -> Prop) ks acc0 l acc :
  P [::] acc0 ->
  (forall done a rest s s' l',
      ks = done ++ a :: rest -> P done s -> body s a = (l', Ok s') ->
      P (rcons done a) s') ->
  foldM body acc0 ks = (l, Ok acc) -> P ks acc.
Proof.
move=> H0 Hstep.
suff Hgen: forall rest done s l0, ks = done ++ rest -> P done s ->
    foldM body s rest = (l0, Ok acc) -> P ks acc.
  exact: (Hgen ks [::] acc0 l).
elim=> [|a rest IH] done s l0 Hks HP /=.
  by case=> _ <-; rewrite Hks cats0.
move=> Hbind; case: (bindP Hbind) => l1 [s' [l2 [Hb Hf _]]].
apply: (IH (rcons done a) s' l2) => //; first by rewrite cat_rcons.
exact: Hstep Hks HP Hb.
Qed.

(** ** [invertMatrix] *)

Lemma all_nan_nan_like (A : ndarray) : all_nan (nan_like A).
Proof.
rewrite /all_nan /nan_like /= all_map.
by elim: (rows A) => //= r rs ->; rewrite all_map andbT; elim: r.
Qed.

Lemma same_shape_nan_like (A : ndarray) : same_shape A (nan_like A).
Proof.
rewrite /same_shape /nan_like /= eqxx /= -map_comp.
by apply/eqP/eq_map => r /=; rewrite size_map.
Qed.

(** C3. [invertMatrix] on an array with a NaN entry warns and returns an
    all-NaN array of the same shape, whatever [raise_error], and does not
    raise; on a NaN-free array whose condition number exceeds [1/eps] it
    raises [ValueError] when [raise_error] (the default) and warns and
    returns an all-NaN array otherwise; in the remaining case it returns
    what [np.linalg.inv(A)] returns, with no warning. *)
Theorem invertMatrix_spec (E : env) (A : ndarray) :
  (has_nan A ->
     forall raise_error,
       invertMatrix E A raise_error = ([:: Warning nan_warning], Ok (nan_like A)))
  /\ (forall c, ~~ has_nan A -> np_linalg_cond E A = Ok c -> (1 / eps <? c)%float ->
        invertMatrix E A true = ([::], Raise ValueError)
        /\ invertMatrix E A false
           = ([:: Warning singular_warning], Ok (nan_like A)))
  /\ (forall c, ~~ has_nan A -> np_linalg_cond E A = Ok c -> ~~ (1 / eps <? c)%float ->
        forall raise_error,
          invertMatrix E A raise_error = ([::], np_linalg_inv E A))
  /\ all_nan (nan_like A) /\ same_shape A (nan_like A).
Proof.
split; [|split; [|split; [|split]]].
- by move=> Hnan r; rewrite /invertMatrix Hnan.
- by move=> c /negbTE Hnan Hc Hgt; rewrite /invertMatrix Hnan !bind_lift Hc !Hgt.
- move=> c /negbTE Hnan Hc /negbTE Hle r.
  by rewrite /invertMatrix Hnan bind_lift Hc Hle /lift; case: (np_linalg_inv E A).
- exact: all_nan_nan_like.
- exact: same_shape_nan_like.
Qed.

(** ** Tables *)

Lemma cell_set_cell tbl r j v r' j' :
  cell (set_cell tbl r j v) r' j'
  = if (r' == r) && (j' == j) then v else cell tbl r' j'.
Proof.
rewrite /cell /set_cell nth_set_nth /=.
by case: (r' =P r) => [->|_] //=; rewrite nth_set_nth.
Qed.

Lemma size_set_cell tbl r j v : r < size tbl -> size (set_cell tbl r j v) = size tbl.
Proof. by move=> Hr; rewrite /set_cell size_set_nth; apply/maxn_idPr. Qed.

Lemma nth_map0 {A B} (f : A -> B) x0 y0 s i :
  f x0 = y0 -> nth y0 (map f s) i = f (nth x0 s i).
Proof. by move=> <-; elim: s i => [|a s IH] [|i] /=. Qed.

Lemma nth_all0 {A} (P : pred A) x0 s i : P x0 -> all P s -> P (nth x0 s i).
Proof.
move=> H0; elim: s i => [|a s IH] i /=; first by rewrite nth_nil.
by case/andP => Ha Hs; case: i => [|i] //=; apply: IH.
Qed.

Lemma index_uniq_cat {A : eqType} (done rest : seq A) a :
  uniq (done ++ a :: rest) -> index a (done ++ a :: rest) = size done.
Proof.
rewrite cat_uniq => /and3P [_ Hhas _]; rewrite index_cat.
have /negbTE -> : a \notin done.
  by apply: contra Hhas => Ha; apply/hasP; exists a => //; rewrite mem_head.
by rewrite /= eqxx addn0.
Qed.

Lemma disturbed_inj : injective disturbed.
Proof.
rewrite /disturbed => a b; elim: "disturbed " => [|ch s IH] //=.
by case.
Qed.

Lemma index_disturbed c k :
  index (disturbed k) (disturbedKeys c) = index k (xb_vars c).
Proof. exact: (index_map disturbed_inj). Qed.

(** ** The three loops of [getJacobian] in closed form *)

Section JacobianLoops.

Variables (E : env) (c : config) (ds : dict) (xb y : vec).

Let n := size (xb_vars c).
Local Notation key j := (nth "" (xb_vars c) j).

Hypothesis uniq_xb : uniq (xb_vars c).

Lemma index_key done a rest :
  xb_vars c = done ++ a :: rest -> index a (xb_vars c) = size done.
Proof. by move=> Hks; rewrite Hks; apply: index_uniq_cat; rewrite -Hks. Qed.

Lemma key_done done a rest : xb_vars c = done ++ a :: rest -> key (size done) = a.
Proof. by move=> Hks; rewrite Hks nth_cat ltnn subnn. Qed.

Lemma done_lt done a rest : xb_vars c = done ++ a :: rest -> size done < n.
Proof. by move=> Hks; rewrite /n Hks size_cat /= addnS ltnS leq_addr. Qed.

(** Lines 261-270: row [j] of [xb_disturbed] is [xb] with its component
    [j] replaced by the perturbed value. *)
Lemma xb_disturbed_rows l xbd :
  foldM (disturb_row c ds xb) (nseq n (nseq n PrimFloat.nan)) (xb_vars c) = (l, Ok xbd) ->
  size xbd = n
  /\ forall j, j < n ->
       exists2 d, dict_item ds (key j) = Ok d
                  & nth [::] xbd j = set_nth 0%float xb j (perturbed c xb d (key j)).
Proof.
apply: (@foldM_inv _ _ _ (fun done tbl => size tbl = n /\ forall j, j < size done ->
          exists2 d, dict_item ds (key j) = Ok d
            & nth [::] tbl j = set_nth 0%float xb j (perturbed c xb d (key j)))).
- by split=> [|j //]; rewrite size_nseq.
- move=> done a rest tbl tbl' l' Hks [Hsz Hrows].
  rewrite /disturb_row index_disturbed (index_key Hks) bind_lift.
  case Hd: (dict_item ds a) => [d|e] // [_ <-].
  have Hp := done_lt Hks.
  have Hs1 : size (set_nth [::] tbl (size done) xb) = n.
    by rewrite size_set_nth Hsz; apply/maxn_idPr.
  split; first by rewrite size_set_cell Hs1.
  move=> j; rewrite size_rcons ltnS leq_eqVlt => /orP [/eqP ->|Hj].
    exists d; first by rewrite (key_done Hks).
    by rewrite /set_cell !nth_set_nth /= !eqxx (key_done Hks).
  have [d' Hd' Hrow] := Hrows j Hj; exists d' => //.
  by rewrite /set_cell nth_set_nth /= (ltn_eqF Hj) nth_set_nth /= (ltn_eqF Hj).
Qed.

(** Lines 276-278: row [j] of [y_disturbed] is the forward model at row [j]
    of [xb_disturbed]. *)
Lemma y_disturbed_rows (xbd : seq vec) l yd :
  foldM (forward_row E c xbd) (nseq n (nseq (y_n c) PrimFloat.nan)) (disturbedKeys c)
    = (l, Ok yd) ->
  size yd = n
  /\ forall j, j < n ->
       exists2 yj, forward E (nth [::] xbd j) = Ok yj & nth [::] yd j = yj.
Proof.
have Hud : uniq (disturbedKeys c) by rewrite (map_inj_uniq disturbed_inj).
have Hnd : size (disturbedKeys c) = n by rewrite size_map.
rewrite -{3}Hnd.
apply: (@foldM_inv _ _ _ (fun done tbl => size tbl = n /\ forall j, j < size done ->
          exists2 yj, forward E (nth [::] xbd j) = Ok yj & nth [::] tbl j = yj)).
- by split=> [|j //]; rewrite size_nseq.
- move=> done a rest tbl tbl' l' Hks [Hsz Hrows].
  have Hidx : index a (disturbedKeys c) = size done.
    by rewrite Hks; apply: index_uniq_cat; rewrite -Hks.
  have Hp : size done < n by rewrite -Hnd Hks size_cat /= addnS ltnS leq_addr.
  rewrite /forward_row Hidx bind_lift.
  case Hf: (forward E _) => [yj|e] //; rewrite bind_lift /as_series.
  case: ifP => _ // [_ <-]; split.
    by rewrite size_set_nth Hsz; apply/maxn_idPr.
  move=> j; rewrite size_rcons ltnS leq_eqVlt => /orP [/eqP ->|Hj].
    by exists yj => //; rewrite nth_set_nth /= eqxx.
  have [yj' Hf' Hrow] := Hrows j Hj; exists yj' => //.
  by rewrite nth_set_nth /= (ltn_eqF Hj).
Qed.

(** Lines 286-296, for one [y_key]. *)
Lemma jacobian_row (yd jac0 : seq vec) y_key l jac :
  index y_key (y_vars c) < size jac0 ->
  foldM (jacobian_cell c ds xb y yd y_key) jac0 (xb_vars c) = (l, Ok jac) ->
  let k := index y_key (y_vars c) in
  [/\ size jac = size jac0,
      forall j, j < n ->
        exists2 d, dict_item ds (key j) = Ok d & cell jac k j = quotient c xb y yd k j d
    & forall k' j, k' != k -> cell jac k' j = cell jac0 k' j].
Proof.
move=> Hk Hfold k.
suff: [/\ size jac = size jac0,
      forall j, j < size (xb_vars c) ->
        exists2 d, dict_item ds (key j) = Ok d & cell jac k j = quotient c xb y yd k j d
    & forall k' j, k' != k -> cell jac k' j = cell jac0 k' j] by [].
move: Hfold.
apply: (@foldM_inv _ _ _ (fun done jac => [/\ size jac = size jac0,
      forall j, j < size done ->
        exists2 d, dict_item ds (key j) = Ok d & cell jac k j = quotient c xb y yd k j d
    & forall k' j, k' != k -> cell jac k' j = cell jac0 k' j])).
- by split.
- move=> done a rest tbl tbl' l' Hks [Hsz Hrow Hother].
  rewrite /jacobian_cell index_disturbed (index_key Hks) bind_lift.
  case Hd: (dict_item ds a) => [d|e] //.
  have -> : (if useFactorInJac c then ret tt
             else assert (~~ (dist c xb d a =? 0)%float))
            = assert (useFactorInJac c || ~~ (dist c xb d a =? 0)%float).
    by rewrite /assert; case: (useFactorInJac c).
  rewrite bind_assert; case: ifP => _ // [_ <-]; split.
  + by rewrite size_set_cell ?Hsz.
  + move=> j; rewrite size_rcons ltnS leq_eqVlt => /orP [/eqP ->|Hj].
      exists d; first by rewrite (key_done Hks).
      by rewrite cell_set_cell !eqxx /quotient /cell /loc (key_done Hks).
    have [d' Hd' Hc] := Hrow j Hj; exists d' => //.
    by rewrite cell_set_cell (ltn_eqF Hj) andbF.
  + by move=> k' j Hk'; rewrite cell_set_cell (negbTE Hk') /=; apply: Hother.
Qed.

Hypothesis uniq_y : uniq (y_vars c).

(** Lines 285-296. *)
Lemma jacobian_cells (yd : seq vec) l jac :
  foldM (fun jac y_key => foldM (jacobian_cell c ds xb y yd y_key) jac (xb_vars c))
        (nseq (y_n c) (nseq n 1%float)) (y_vars c) = (l, Ok jac) ->
  size jac = y_n c
  /\ forall k j, k < y_n c -> j < n ->
       exists2 d, dict_item ds (key j) = Ok d & cell jac k j = quotient c xb y yd k j d.
Proof.
apply: (@foldM_inv _ _ _ (fun done jac => size jac = y_n c /\
    forall k j, k < size done -> j < n ->
       exists2 d, dict_item ds (key j) = Ok d & cell jac k j = quotient c xb y yd k j d)).
- by split=> [|k j //]; rewrite size_nseq.
- move=> done a rest tbl tbl' l' Hks [Hsz Hdone] Hrow.
  have Hidx : index a (y_vars c) = size done.
    by rewrite Hks; apply: index_uniq_cat; rewrite -Hks.
  have Hp : size done < y_n c by rewrite /y_n Hks size_cat /= addnS ltnS leq_addr.
  have := jacobian_row _ Hrow; rewrite Hidx Hsz => /(_ Hp) /= [Hsz' Hnew Hold].
  split; first by rewrite Hsz'.
  move=> k j; rewrite size_rcons ltnS leq_eqVlt => /orP [/eqP ->|Hk] Hj.
    exact: Hnew.
  have [d Hd Hc] := Hdone k j Hk Hj; exists d => //.
  by rewrite Hold // (ltn_eqF Hk).
Qed.

End JacobianLoops.




Lemma entry_select_columns c jac names k j :
  k < size jac -> j < size names ->
  entry (select_columns c jac names) k j
  = cell jac k (index (nth "" names j) (xb_vars c)).
Proof.
move=> Hk Hj; rewrite /entry /select_columns /cell /=.
by rewrite (nth_map [::]) // (nth_map "") // index_disturbed.
Qed.






(** ** The check of the new state, lines 415-445 *)

Lemma resetP c m x jj :
  reset c m x jj
  = ([:: Stdout Banner; Stdout m], Ok (set_nth 0%float x jj (nth 0%float (x_a c) jj))).
Proof. by []. Qed.

Lemma check_componentP c i x jj xKey :
  exists2 l, all is_stdout l
  & check_component c i x (jj, xKey)
    = (l, Ok (if violates_as c x jj xKey
              then set_nth 0%float x jj (nth 0%float (x_a c) jj) else x)).
Proof.
rewrite /check_component /violates_as.
set xa := nth 0%float (x_a c) jj.
have Hset : forall s, nth 0%float (set_nth 0%float s jj xa) jj = xa.
  by move=> s; rewrite nth_set_nth /= eqxx.
have Hidem : forall s, set_nth 0%float (set_nth 0%float s jj xa) jj xa
                       = set_nth 0%float s jj xa.
  by move=> s; rewrite set_set_nth eqxx.
case Hlo: (dict_lt _ _ _); rewrite ?resetP /=.
- rewrite /bind /= Hset.
  by case: (dict_gt _ _ _); rewrite ?resetP /= ?Hset;
     case: (PrimFloat.is_nan xa); rewrite ?resetP /= ?Hidem;
     (eexists; [|reflexivity]).
- rewrite bind_ret.
  case Hup: (dict_gt _ _ _); rewrite ?resetP /=.
    rewrite /bind /= Hset.
    by case: (PrimFloat.is_nan xa); rewrite ?resetP /= ?Hidem;
       (eexists; [|reflexivity]).
  by rewrite bind_ret; case: (PrimFloat.is_nan _); rewrite ?resetP;
     (eexists; [|reflexivity]).
Qed.

Lemma check_valid_from c i ks p x :
  exists l x',
    [/\ foldM (check_component c i) x (zip (iota p (size ks)) ks) = (l, Ok x'),
        all is_stdout l,
        p + size ks <= size x -> size x' = size x
      & forall jj,
          nth 0%float x' jj
          = if (p <= jj < p + size ks) && violates_as c x jj (nth "" ks (jj - p))
            then nth 0%float (x_a c) jj else nth 0%float x jj].
Proof.
elim: ks p x => [|k ks IH] p x /=.
  exists [::], x; split=> // jj.
  by rewrite addn0; case: (leqP p jj) => // Hp; rewrite ltnNge Hp.
have [l1 Hl1 Hstep] := check_componentP c i x p k.
set x1 := (if _ then _ else x) in Hstep.
have [l2 [x' [Hfold Hl2 Hsize Hnth]]] := IH p.+1 x1.
exists (l1 ++ l2), x'; split.
- by rewrite Hstep /bind Hfold.
- by rewrite all_cat Hl1.
- move=> Hp; have Hx1 : size x1 = size x.
    rewrite /x1; case: ifP => // _; rewrite size_set_nth; apply/maxn_idPr.
    by apply: leq_trans Hp; rewrite addnS ltnS leq_addr.
  by rewrite Hsize Hx1 // addSnnS.
- move=> jj; rewrite Hnth addSnnS.
  have Hx1 : forall j, j != p -> nth 0%float x1 j = nth 0%float x j.
    move=> j Hj; rewrite /x1; case: ifP => // _.
    by rewrite nth_set_nth /= (negbTE Hj).
  case: (ltngtP p jj) => [Hlt|Hgt|<-] /=.
  + have Hne : jj != p by rewrite neq_ltn Hlt orbT.
    by rewrite /violates_as !Hx1 // -(subnSK Hlt).
  + by rewrite Hx1 // neq_ltn Hgt.
  + rewrite subnn /= -addSnnS ltn_addr //= /x1.
    by case: ifP => _ //; rewrite nth_set_nth /= eqxx.
Qed.

(** C7. The check of lines 415-445 always ends without an exception, after
    printing only; it leaves the length of the state unchanged; and the
    component at every position [jj] is afterwards the prior value
    [x_a[jj]] (not the limit) if it undercut its configured lower limit,
    exceeded its configured upper limit or was NaN, and its updated value
    otherwise. *)
Theorem check_valid_spec (c : config) (i : nat) (x : vec) :
  size x = x_n c ->
  exists l x',
    [/\ check_valid c i x = (l, Ok x'),
        all is_stdout l,
        size x' = size x
      & forall jj, jj < x_n c ->
          nth 0%float x' jj
          = if violates c x jj then nth 0%float (x_a c) jj else nth 0%float x jj].
Proof.
move=> Hsz; have [l [x' [Hfold Hl Hsize Hnth]]] := check_valid_from c i (x_vars c) 0 x.
exists l, x'; split=> //; first by apply: Hsize; rewrite add0n Hsz.
by move=> jj Hjj; rewrite Hnth add0n subn0 leq0n Hjj.
Qed.

(** ** The loop of [doRetrieval] *)

Lemma set_converged_id e : set_converged e (converged e) = e.
Proof. by case: e. Qed.

Lemma numericsP E i e l e1 :
  numerics E i e = (l, Ok e1) ->
  exists2 it, step E e i = (l, Ok it)
  & e1 = Engine (cfg e) (converged e) (S_a_inv e) (it_xb_disturbed it)
                (it_y_disturbed it) (record (hist e) i it) (sol e) (diag e).
Proof.
move=> H; case: (bindP H) => l1 [it [l2 [Hstep [<- <-] ->]]].
by exists it => //; rewrite cats0.
Qed.

Lemma satisfied_record c h i it k :
  k != i -> satisfied c (record h i it) k = satisfied c h k.
Proof. by move=> Hk; rewrite /satisfied /= nth_set_nth /= (negbTE Hk). Qed.

Lemma satisfied_truncate c h i k :
  k <= i -> satisfied c (truncate h i) k = satisfied c h k.
Proof. by move=> Hk; rewrite /satisfied /= !nth_take. Qed.

Lemma controlP E maxTime i e l e2 v :
  control E maxTime i e = (l, Ok (e2, v)) ->
  e2 = set_converged e (converged e2)
  /\ match v with
     | BreakDone => converged e /\ converged e2
     | BreakTimeExceeded =>
         [/\ ~~ converged e, ~~ converged e2 & (maxTime <? elapsed E i)%float]
     | BreakDgfZero =>
         [/\ ~~ converged e, ~~ converged e2, 1 < i
           & ~~ satisfied (cfg e) (hist e) i]
     | Continue =>
         ~~ converged e /\ converged e2 = satisfied (cfg e) (hist e) i
     end.
Proof.
rewrite /control /satisfied /threshold.
case Hc: (converged e).
  by rewrite /print bind_emit /= => -[_ <- <-]; rewrite -{1}Hc set_converged_id Hc.
case Ht: (_ <? _)%float.
  by rewrite /print bind_emit /= => -[_ <- <-].
case Hi: (i != 0); last first.
  by case=> _ <- <-; rewrite -{1}Hc set_converged_id Hc.
case Hcf: (_ =? _)%float; rewrite bind_lift //.
case Hcrit: (criterion _ _ _).
  by rewrite /print bind_emit /= => -[_ <- <-].
case Hdgf: (_ && _).
  by rewrite /print bind_emit /= => -[_ <- <-]; case/andP: Hdgf => ->.
by rewrite /print bind_emit /= => -[_ <- <-]; rewrite -{1}Hc set_converged_id Hc.
Qed.

Lemma pass_end E maxTime i e l1 e1 l2 e2 v :
  numerics E i e = (l1, Ok e1) ->
  control E maxTime i e1 = (l2, Ok (e2, v)) ->
  converged e = satisfied (cfg e) (hist e) i.-1 ->
  (forall k, k.+1 < i -> ~~ satisfied (cfg e) (hist e) k) ->
  [/\ [/\ cfg e2 = cfg e, S_a_inv e2 = S_a_inv e, sol e2 = sol e & diag e2 = diag e],
      last_pass E i e2,
      forall k, k < i -> satisfied (cfg e2) (hist e2) k = satisfied (cfg e) (hist e) k
    & ending i e2 v].
Proof.
move=> Hnum Hctl Hconv Hnot.
have [it Hstep He1] := numericsP Hnum.
have [He2 Hv] := controlP Hctl.
have Hcfg : cfg e2 = cfg e by rewrite He2 He1.
have Hhist : hist e2 = record (hist e) i it by rewrite He2 He1.
have Hsat : forall k, k < i ->
    satisfied (cfg e2) (hist e2) k = satisfied (cfg e) (hist e) k.
  by move=> k Hk; rewrite Hcfg Hhist satisfied_record // neq_ltn Hk.
have Hce1 : converged e1 = converged e by rewrite He1.
have Hhe1 : satisfied (cfg e1) (hist e1) i = satisfied (cfg e2) (hist e2) i.
  by rewrite He2.
split=> //; first by rewrite He2 He1.
  by exists e, it, l1; split=> //; rewrite He2 He1.
have Hpred : forall m, m.-1 != 0 -> 1 < m by case=> [|[|m]].
have Hprev : converged e -> 1 < i /\ satisfied (cfg e2) (hist e2) i.-1.
  rewrite Hconv => Hs; have Hi : 1 < i by apply: Hpred; case/andP: Hs.
  by split=> //; rewrite Hsat // ltn_predL (ltn_trans _ Hi).
case: v Hv {Hctl He2} => /=.
- case=> Hn ->; rewrite Hhe1; split=> //.
  case Hs: (satisfied (cfg e2) (hist e2) i.-1) => //.
  case: (ltnP 0 i) => Hi; last first.
    by move: Hs; rewrite /satisfied; move: Hi; rewrite leqn0 => /eqP ->.
  by move: Hn; rewrite Hce1 Hconv -(Hsat i.-1) ?Hs // ltn_predL.
- by case; rewrite Hce1 => /Hprev [Hi Hs] ->.
- by case.
- by case.
Qed.

Lemma loopP E maxTime n i e l j e' v :
  loop E maxTime n i e = (l, Ok (j, e', v)) ->
  converged e = satisfied (cfg e) (hist e) i.-1 ->
  (forall k, k.+1 < i -> ~~ satisfied (cfg e) (hist e) k) ->
  [/\ [/\ i <= j, j <= i + n & v = Continue -> j = i + n],
      [/\ cfg e' = cfg e, S_a_inv e' = S_a_inv e, sol e' = sol e & diag e' = diag e],
      last_pass E j e',
      forall k, k.+1 < j -> ~~ satisfied (cfg e') (hist e') k
    & ending j e' v].
Proof.
elim: n i e l => [|n IH] i e l /= Hloop Hconv Hnot.
- case: (bindP Hloop) => l1 [e1 [l2 [Hnum {}Hloop _]]].
  case: (bindP Hloop) => l3 [[e2 v2] [l4 [Hctl Hret _]]].
  have [Hframe Hlast Hsat Hend] := pass_end Hnum Hctl Hconv Hnot.
  have [Hj He' Hv] : [/\ i = j, e2 = e' & v2 = v] by case: v2 Hret {Hctl Hend} => -[].
  rewrite -Hj -He' -Hv addn0 leqnn; split=> // k Hk.
  by rewrite Hsat ?Hnot // (ltn_trans _ Hk).
- case: (bindP Hloop) => l1 [e1 [l2 [Hnum {}Hloop _]]].
  case: (bindP Hloop) => l3 [[e2 v2] [l4 [Hctl Hret _]]].
  have [Hframe Hlast Hsat Hend] := pass_end Hnum Hctl Hconv Hnot.
  have Hnotj : forall k, k.+1 < i -> ~~ satisfied (cfg e2) (hist e2) k.
    by move=> k Hk; rewrite Hsat ?Hnot // (ltn_trans _ Hk).
  case: v2 Hret Hctl Hend => /= Hret Hctl Hend; first last.
  + by case: Hret => _ <- <- <-; rewrite leqnn leq_addr.
  + by case: Hret => _ <- <- <-; rewrite leqnn leq_addr.
  + by case: Hret => _ <- <- <-; rewrite leqnn leq_addr.
  + case: Hend => Hc2 Hprev.
    have [] := IH _ _ _ Hret Hc2.
      move=> k; rewrite ltnS leq_eqVlt => /orP [/eqP Hk|Hk]; last exact: Hnotj.
      by move: Hprev; rewrite -Hk.
    case=> Hij Hjn Hcont [Hcfg HSa Hsol Hdiag] Hlast' Hnot' Hend'.
    case: Hframe => Hcfg2 HSa2 Hsol2 Hdiag2.
    split=> //; last by rewrite Hcfg HSa Hsol Hdiag.
    by rewrite (ltnW Hij) -addSnnS Hjn; split=> // /Hcont ->.
Qed.

Lemma prepareP E maxIter x_0 e l e0 :
  prepare E maxIter x_0 e = (l, Ok e0) ->
  [/\ 0 < maxIter, converged e0 = false, cfg e0 = cfg e, sol e0 = sol e
    & diag e0 = diag e].
Proof.
rewrite /prepare bind_assert; case: (0 < maxIter) => // H.
case: (bindP H) => ? [Sa_inv [? [_ {}H _]]].
case: (bindP H) => ? [gam [? [_ {}H _]]].
case: (bindP H) => ? [x0 [? [_ {}H _]]].
case: (bindP H) => ? [y [? [_ {}H _]]].
case: (bindP H) => ? [y0 [? [_ {}H _]]].
by case: H => _ <-.
Qed.

(** What a run that returned went through: the loop ended in some pass [i]
    with a verdict [v], and the object is the one the loop left, finalised. *)
Lemma doRetrievalP E maxIter x_0 maxTime e l e' b :
  doRetrieval E maxIter x_0 maxTime e = (l, Ok (e', b)) ->
  exists i e1 v,
    [/\ iterations E maxIter x_0 maxTime e = (l, Ok (i, e1, v)),
        e' = finalize i e1, b = converged e1, i < maxIter
      & [/\ cfg e1 = cfg e, last_pass E i e1,
            forall k, k.+1 < i -> ~~ satisfied (cfg e1) (hist e1) k,
            v = Continue -> i = maxIter.-1
          & ending i e1 v]].
Proof.
move=> H; case: (bindP H) => l1 [[[i e1] v] [l2 [Hit [<- <- <-] ->]]].
case: (bindP Hit) => l3 [e0 [l4 [Hprep Hloop _]]].
have [Hmax Hc0 Hcfg0 _ _] := prepareP Hprep.
have [] := loopP Hloop; rewrite ?Hc0 //.
rewrite add0n; case=> _ Hi Hcont [Hcfg _ _ _] Hlast Hnot Hend.
exists i, e1, v; rewrite cats0; split=> //; first by rewrite -(prednK Hmax) ltnS.
by split=> //; rewrite Hcfg.
Qed.

(** ** The outcome of [doRetrieval] *)

(** When [doRetrieval] returns [False], [convI] is [-9999] and each of
    [x_op], [y_op], [S_op], [x_op_err], [dgf], [dgf_x] and [S_Ep] is
    [np.nan].  The loop ended
    either by the [break] for the exceeded time or by the [break] for zero
    degrees of freedom, and then the flag is [False]; or it ran through all
    [maxIter] passes, and then the flag is [False] unless the last pass met
    the convergence criterion. *)
Theorem doRetrieval_not_converged (E : env) (maxIter : nat) (x_0 : option vec)
    (maxTime : float) (e : engine) l e' b :
  doRetrieval E maxIter x_0 maxTime e = (l, Ok (e', b)) ->
  [/\ b = converged e',
      ~~ b -> sol e' = Solution (Some (-9999)%Z) PyNan PyNan PyNan PyNan PyNan PyNan PyNan
    & exists i e1 v,
        [/\ iterations E maxIter x_0 maxTime e = (l, Ok (i, e1, v)),
            v = BreakTimeExceeded \/ v = BreakDgfZero -> b = false,
            v = Continue ->
              i = maxIter.-1 /\ b = satisfied (cfg e') (hist e') i
          & ~~ b -> [\/ v = BreakTimeExceeded, v = BreakDgfZero | v = Continue]]].
Proof.
move=> H; have [i [e1 [v [Hit He' Hb Hi [Hcfg Hlast Hnot Hcont Hend]]]]] := doRetrievalP H.
have Hconv : converged e' = converged e1 by rewrite He'.
split; first by rewrite Hconv.
  by rewrite He' /finalize -Hb /=; case: b {H Hb}.
exists i, e1, v; split=> //.
- by case=> Hv; move: Hend; rewrite Hv /= -Hb; [move/negbTE|case=> /negbTE].
- move=> Hv; split; first exact: Hcont.
  by move: Hend; rewrite Hv /= -Hb He' /= satisfied_truncate // => -[].
- case: v Hend {Hit Hcont} => /=; try by move=> *; constructor.
  by case; rewrite -Hb => ->.
Qed.

Lemma stepP E e i l it :
  step E e i = (l, Ok it) ->
  evaluated_at E (cfg e) (S_a_inv e) (nth 0%float (gam_i (hist e)) i)
    (nth [::] (x_i (hist e)) i) (nth [::] (y_i (hist e)) i)
    (it_K it) (it_K_b it) (it_S_aposterior it) (it_A it)
  /\ exists K S_Ep_inv B_inv l',
       check_valid (cfg e) i
         (next_state (cfg e) K S_Ep_inv B_inv
            (nth [::] (x_i (hist e)) i) (nth [::] (y_i (hist e)) i))
       = (l', Ok (it_x it)).
Proof.
rewrite /step => H.
case: (bindP H) => l1 [J [? [HJ {}H _]]].
case: (bindP H) => l2 [S_Ep_inv [? [HS {}H _]]].
case: (bindP H) => l3 [B_inv [? [HB {}H _]]].
case: (bindP H) => ? [y1 [? [_ {}H _]]].
case: (bindP H) => ? [y1' [? [_ {}H _]]].
case: (bindP H) => ? [det [? [_ {}H _]]].
case: (bindP H) => l4 [x1 [? [Hx {}H _]]].
case: (bindP H) => ? [Sinv [? [_ [_ <-] _]]] /=.
split; first by exists J, S_Ep_inv, B_inv, l1, l2, l3.
by exists (jacobian_x J), S_Ep_inv, B_inv, l4.
Qed.

(** The accepted solution of a run that ended in pass [i] with the flag set:
    [convI] is [i], the solution fields are read at index [i], and the
    Jacobians, the posterior covariance and the averaging kernel stored at
    [i] were evaluated at [x_op] in pass [i]. *)
Lemma accepted E maxIter x_0 maxTime e l e' i e1 v :
  doRetrieval E maxIter x_0 maxTime e = (l, Ok (e', true)) ->
  iterations E maxIter x_0 maxTime e = (l, Ok (i, e1, v)) ->
  let h := hist e' in
  [/\ convI (sol e') = Some (Posz i),
      [/\ x_op (sol e') = Val (nth [::] (x_i h) i),
          y_op (sol e') = Val (nth [::] (y_i h) i)
        & S_op (sol e') = Val (nth empty_array (S_aposterior_i h) i)]
    & evaluated_at E (cfg e') (S_a_inv e') (nth 0%float (gam_i h) i)
        (nth [::] (x_i h) i) (nth [::] (y_i h) i)
        (nth empty_array (K_i h) i) (nth empty_array (K_b_i h) i)
        (nth empty_array (S_aposterior_i h) i) (nth empty_array (A_i h) i)].
Proof.
move=> H Hit.
have [i' [e1' [v' [Hit' He' Hb _ [_ Hlast _ _ _]]]]] := doRetrievalP H.
move: Hit'; rewrite Hit => -[Hi He1 _]; rewrite -{}Hi -{}He1 {i' e1' v'} in He' Hb Hlast.
case: Hlast => e_in [it [l0 [Hstep Hhist Hcfg HSa]]].
have [Hev _] := stepP Hstep.
rewrite He' /finalize -Hb /= Hhist /= !nth_take // !nth_set_nth /= !eqxx.
have /negbTE -> : i != i.+1 by rewrite neq_ltn ltnSn.
by rewrite -Hcfg -HSa.
Qed.

(** A run that ended by the [break] of the confirmation pass (line 465):
    the criterion was first met in pass [i - 1], whose result is the
    accepted state, and [i] is at least 2. *)
Lemma confirmed E maxIter x_0 maxTime e l e' b i e1 :
  doRetrieval E maxIter x_0 maxTime e = (l, Ok (e', b)) ->
  iterations E maxIter x_0 maxTime e = (l, Ok (i, e1, BreakDone)) ->
  [/\ b, 1 < i, satisfied (cfg e') (hist e') i.-1
    & forall k, k < i.-1 -> ~~ satisfied (cfg e') (hist e') k].
Proof.
move=> H Hit.
have [i' [e1' [v' [Hit' He' Hb _ [_ _ Hnot _ Hend]]]]] := doRetrievalP H.
move: Hit'; rewrite Hit => -[Hi He1 Hv].
rewrite -{}Hi -{}He1 -{}Hv {i' e1' v'} in He' Hb Hnot Hend.
case: Hend => Hc Hi Hs; split=> //; first by rewrite Hb.
  by rewrite He' /= satisfied_truncate // leq_pred.
move=> k Hk; have Hki : k <= i by apply: ltnW; apply: leq_trans Hk (leq_pred i).
rewrite He' /= satisfied_truncate //.
by apply: Hnot; rewrite -(ltn_predK Hi) ltnS.
Qed.

(** A run that ended because [range(maxIter)] was exhausted, with the flag
    set: the criterion was first met in the last pass, [maxIter - 1], which
    is also [convI]; no further pass ran. *)
Lemma unconfirmed E maxIter x_0 maxTime e l e' i e1 :
  doRetrieval E maxIter x_0 maxTime e = (l, Ok (e', true)) ->
  iterations E maxIter x_0 maxTime e = (l, Ok (i, e1, Continue)) ->
  [/\ i = maxIter.-1, 0 < i, satisfied (cfg e') (hist e') i
    & forall k, k < i -> ~~ satisfied (cfg e') (hist e') k].
Proof.
move=> H Hit.
have [i' [e1' [v' [Hit' He' Hb _ [_ _ Hnot Hcont Hend]]]]] := doRetrievalP H.
move: Hit'; rewrite Hit => -[Hi He1 Hv].
rewrite -{}Hi -{}He1 -{}Hv {i' e1' v'} in He' Hb Hnot Hend Hcont.
case: Hend; rewrite -Hb => /esym Hs Hprev.
have Hi : 0 < i by case/andP: Hs; rewrite lt0n.
split=> //; first exact: Hcont.
  by rewrite He' /= satisfied_truncate.
move=> k Hk; have Hki : k <= i by exact: ltnW.
rewrite He' /= satisfied_truncate //.
move: Hk; rewrite -{1}(prednK Hi) ltnS leq_eqVlt => /orP [/eqP ->|Hk] //.
by apply: Hnot; rewrite -(prednK Hi) ltnS.
Qed.

(** Every converged run accepted an index of at least 1. *)
Lemma converged_convI E maxIter x_0 maxTime e l e' :
  doRetrieval E maxIter x_0 maxTime e = (l, Ok (e', true)) ->
  exists2 i, convI (sol e') = Some (Posz i) & 0 < i < maxIter.
Proof.
move=> H; have [i [e1 [v [Hit He' Hb Hi [_ _ _ _ Hend]]]]] := doRetrievalP H.
have [HconvI _ _] := accepted H Hit; exists i => //; rewrite Hi andbT.
case: v Hend {Hit} => /=; rewrite -?Hb //.
- by case=> /esym /andP []; rewrite lt0n.
- by case=> _ /ltnW.
- by case.
Qed.

(** ** The convergence test of one pass *)



(** ** The generalized chi-square test *)

Lemma zipWith_mask {A B C} (f : A -> B -> C) (a : pred B) (s : seq A) (t : seq B) :
  size s = size t ->
  zipWith f (mask [seq a y | y <- t] s) (mask [seq a y | y <- t] t)
  = [seq f p.1 p.2 | p <- zip s t & a p.2].
Proof.
elim: s t => [|x s IH] [|y t] //= [Hs]; rewrite /zipWith /= in IH *.
by case: (a y); rewrite /= IH.
Qed.

Lemma count_mask_zip {A B} (a : pred B) (s : seq A) (t : seq B) :
  size s = size t ->
  count id [seq a y | y <- t] = size [seq p <- zip s t | a p.2].
Proof.
elim: s t => [|x s IH] [|y t] //= [Hs].
by rewrite (IH _ Hs); case: (a y).
Qed.

(** C8. When [scipy.linalg.eig] returns the eigenvalues [w] and the left
    eigenvectors (the columns of [V]) of [S]: the residual is projected on
    each left eigenvector; exactly the pairs of a projected component and
    an eigenvalue with [|eigenvalue| > atol] are kept; the degrees of
    freedom are the number of kept pairs; the terms are
    (component)^2 / eigenvalue over the kept pairs, and the statistic is
    their sum, returned with the critical value for that many degrees of
    freedom. *)
Theorem testChi2_spec (E : env) (S : ndarray) (z : vec) (significance atol : float)
    (w : vec) (V : ndarray) :
  scipy_linalg_eig E S = Ok (w, V) ->
  size w = ncols V ->
  let z_prime := [seq vdot (column j V) z | j <- iota 0 (ncols V)] in
  let kept := retained atol z_prime w in
  let chi2s := [seq (p.1 * p.1 / p.2)%float | p <- kept] in
  let l := if size kept != size w
           then [:: Stdout (SingularRank (size kept) (size w))] else [::] in
  _estimateChi2 E S z atol = (l, Ok (chi2s, size kept))
  /\ _testChi2 E S z significance atol
     = (l, Ok (np_sum chi2s, chi2_isf E significance (size kept))).
Proof.
move=> Heig Hsz z_prime kept chi2s l.
have Hz : matvec (transpose V) z = z_prime by rewrite /matvec /= -map_comp.
have Hsz' : size z_prime = size w by rewrite size_map size_iota.
have Hest : _estimateChi2 E S z atol = (l, Ok (chi2s, size kept)).
  rewrite /_estimateChi2 bind_lift Heig Hz size_map.
  rewrite (zipWith_mask _ (fun ev => atol <? PrimFloat.abs ev)%float Hsz').
  rewrite (count_mask_zip (fun ev => atol <? PrimFloat.abs ev)%float Hsz').
  rewrite -/(retained atol z_prime w) -/kept -/chi2s /l.
  by case: ifP => _; rewrite ?bind_ret // /print bind_emit.
by split=> //; rewrite /_testChi2 Hest /bind /= cats0.
Qed.

(** ** The diagnostics before convergence *)

Lemma chiSquareTest_not_converged E e significance :
  ~~ converged e ->
  chiSquareTest E e significance
  = ([:: Stdout DidNotConverge],
     if chi2Results (diag e) is Some res
     then Ok (e, ([seq (r.1 <? r.2)%float | r <- res],
                  [seq r.1 | r <- res], [seq r.2 | r <- res]))
     else Raise AttributeError).
Proof.
move=> Hc; rewrite /chiSquareTest Hc /print /bind /=.
by case: (chi2Results (diag e)).
Qed.

Lemma linearityTest_not_converged E e maxErrorPatterns significance atol :
  ~~ converged e ->
  let d := diag e in
  let nans := nseq (x_n (cfg e)) (0 * PrimFloat.nan)%float in
  linearityTest E e maxErrorPatterns significance atol
  = ([:: Stdout DidNotConverge],
     if trueLinearity d is Some t
     then Ok (set_diag e (Diagnostics (y_a_cache d) (Some nans) (Some t)
                            (Some PrimFloat.nan) (Some PrimFloat.nan)
                            (chi2Results d)),
              LinearityEarly nans t)
     else Raise AttributeError).
Proof.
move=> Hc; rewrite /linearityTest Hc /print /bind /=.
by case: (trueLinearity (diag e)).
Qed.

(** C5, as the code has it.  On an object that has not converged, each of
    the four single chi-square tests fails with an assertion error (their
    first statement asserts convergence), while [chiSquareTest] and
    [linearityTest] print the notice "did not converge". *)
Theorem diagnostics_not_converged (E : env) (e : engine)
    (maxErrorPatterns : option nat) (significance atol : float) :
  ~~ converged e ->
  [/\ chiSquareTestYOptimalObservation E e significance atol
        = ([::], Raise AssertionError),
      chiSquareTestYObservationPrior E e significance atol
        = ([::], Raise AssertionError),
      chiSquareTestYOptimalPrior E e significance atol
        = ([::], Raise AssertionError),
      chiSquareTestXOptimalPrior E e significance atol
        = ([::], Raise AssertionError)
    & (chiSquareTest E e significance).1 = [:: Stdout DidNotConverge]
      /\ (linearityTest E e maxErrorPatterns significance atol).1
         = [:: Stdout DidNotConverge]].
Proof.
move=> Hc; split.
- by rewrite /chiSquareTestYOptimalObservation bind_assert (negbTE Hc).
- by rewrite /chiSquareTestYObservationPrior bind_assert (negbTE Hc).
- by rewrite /chiSquareTestYOptimalPrior bind_assert (negbTE Hc).
- by rewrite /chiSquareTestXOptimalPrior bind_assert (negbTE Hc).
- by rewrite chiSquareTest_not_converged // linearityTest_not_converged.
Qed.

(** ** The one-dimensional problem *)

Section OneDimensional.

Import OneD.

Lemma init_problem f : init (environment f) problem = ([::], Ok (fresh problem)).
Proof. by vm_compute. Qed.

(** *** [invertMatrix] on arrays of shape (1, 1) *)

Example invertMatrix_well_conditioned :
  invertMatrix (environment identity) (array 4%float) true
    = ([::], Ok (array 0.25%float))
  /\ dot (array 4%float) (array 0.25%float) = np_identity 1.
Proof. by vm_compute. Qed.

Example invertMatrix_nan :
  invertMatrix (environment identity) (array PrimFloat.nan) true
    = ([:: Warning nan_warning], Ok (array PrimFloat.nan)).
Proof. by vm_compute. Qed.

Example invertMatrix_singular :
  invertMatrix (environment identity) (array 0%float) true = ([::], Raise ValueError)
  /\ invertMatrix (environment identity) (array 0%float) false
     = ([:: Warning singular_warning], Ok (array PrimFloat.nan)).
Proof. by vm_compute. Qed.

(** *** The Jacobian of [y = x + 0.001 x^2] at [x = 1] *)


Example getJacobian_value :
  getJacobian (environment mild) problem [:: 1%float] [:: mild 1%float]
  = ([::], Ok (Jacobians (array 1.0021000000000013%float) (Arr 0 [:: [::]])
                 [:: [:: 1.1000000000000001%float]] [:: [:: 1.10121%float]])).
Proof. by vm_compute. Qed.

Example getJacobian_zero_variance :
  getJacobian (environment mild)
    (Config [:: "x"] [:: 0%float] (array 0) [:: "y"] [:: 2%float] (array 0.01%float)
       [:: PrimFloat.nan] [::] [::] (Arr 0 [::]) [::] [::] false None
       (DFloat 0.1%float) 10%float)
    [:: 1%float] [:: 1%float]
  = ([::], Raise AssertionError).
Proof. by vm_compute. Qed.

(** *** The check of the new state, with the lower limit [x >= 0] *)

Lemma check_valid_spec_witness :
  exists l x',
    [/\ check_valid bounded 3 [:: (-1)%float] = (l, Ok x'),
        all is_stdout l,
        size x' = 1
      & nth 0%float x' 0 = 0.5%float].
Proof.
have [l [x' [Hc Hl Hs Hn]]] := @check_valid_spec bounded 3 [:: (-1)%float] erefl.
by exists l, x'; split=> //; rewrite (Hn 0 isT).
Defined.

Example check_valid_value :
  check_valid bounded 3 [:: (-1)%float]
  = ([:: Stdout Banner; Stdout (ResetLowerLimit "x" 3)], Ok [:: 0.5%float]).
Proof. by vm_compute. Qed.

(** *** The convergence test *)


(** *** The generalized chi-square test *)

Lemma testChi2_spec_witness :
  _testChi2 (environment identity) (array 2%float) [:: 4%float] 0.05%float 1e-5%float
  = ([::], Ok (8%float, 3.841458820694124%float)).
Proof.
have [_ H] := @testChi2_spec (environment identity) (array 2%float) [:: 4%float]
                0.05%float 1e-5%float [:: 2%float] (array 1%float) erefl erefl.
exact: H.
Defined.

(** *** The diagnostics before convergence *)

Lemma diagnostics_not_converged_witness :
  chiSquareTestYOptimalObservation (environment mild) (fresh problem)
    0.05%float 1e-5%float
  = ([::], Raise AssertionError).
Proof.
by have [H _ _ _ _] := @diagnostics_not_converged (environment mild) (fresh problem)
                         (Some 10) 0.05%float 1e-5%float isT.
Defined.

(** C5 as stated does not hold of the object that [__init__] returns,
    which has not converged: none of the diagnostics returns.  The single
    test fails its assertion, and [chiSquareTest] and [linearityTest] print
    the notice and then fail on an attribute that does not exist
    ([chi2Results], [trueLinearity]). *)
Lemma diagnostics_raise :
  let E := environment mild in
  let e := fresh problem in
  [/\ ~~ converged e,
      ~ graceful (chiSquareTestYOptimalObservation E e 0.05%float 1e-5%float),
      chiSquareTest E e 0.05%float
        = ([:: Stdout DidNotConverge], Raise AttributeError)
    & linearityTest E e (Some 10) 0.05%float 1e-5%float
        = ([:: Stdout DidNotConverge], Raise AttributeError)].
Proof. by split=> //; case. Qed.

(** *** Runs of [doRetrieval] *)

(** [y = x] with two passes allowed: the second step is exactly zero, so the
    criterion is not met. *)
Lemma doRetrieval_not_converged_witness :
  exists l e',
    doRetrieval (environment identity) 2 None maxTime (fresh problem)
      = (l, Ok (e', false))
    /\ sol e' = Solution (Some (-9999)%Z) PyNan PyNan PyNan PyNan PyNan PyNan PyNan.
Proof.
have [l [e' H]] : exists l e',
    doRetrieval (environment identity) 2 None maxTime (fresh problem)
      = (l, Ok (e', false)).
  eexists; eexists; vm_compute; reflexivity.
exists l, e'; split; first exact: H.
have [_ Hsol _] := doRetrieval_not_converged H.
exact: (Hsol isT).
Defined.

(** [y = x + 0.001 x^2] with five passes allowed: the criterion is met in
    pass 1, pass 2 confirms, and the result of pass 1 is accepted. *)
Example doRetrieval_confirmed :
  exists e',
    [/\ doRetrieval (environment mild) 5 None maxTime (fresh problem)
          = ([:: Stdout (IterationFulfilled 1); Stdout (IterationDone 2)],
             Ok (e', true)),
        convI (sol e') = Some (Posz 2),
        x_i (hist e') = [:: [:: 0%float]; [:: 1.9800039400118399%float];
                            [:: 1.9764099938429245%float];
                            [:: 1.976409487707389%float]]
      & x_op (sol e') = Val [:: 1.9764099938429245%float]].
Proof. eexists; split; [vm_compute; reflexivity | vm_compute; reflexivity ..]. Qed.

(** C1 does not hold of the same problem run with [maxIter = 2]: the
    criterion is first met in pass 1, the last pass that [maxIter] allows;
    the loop ends without a confirmation pass, the flag stays set, and
    [x_op] is [x_i[1]], the state that entered pass 1 (the result of
    pass 0), not the state [x_i[2]] that pass 1 produced. *)
Lemma doRetrieval_accepts_previous_state :
  exists e',
    [/\ doRetrieval (environment mild) 2 None maxTime (fresh problem)
          = ([:: Stdout (IterationFulfilled 1)], Ok (e', true)),
        satisfied problem (hist e') 1 && ~~ satisfied problem (hist e') 0,
        x_i (hist e') = [:: [:: 0%float]; [:: 1.9800039400118399%float];
                            [:: 1.9764099938429245%float]],
        x_op (sol e') = Val [:: 1.9800039400118399%float]
      & size (K_i (hist e')) = 2].
Proof. eexists; split; [vm_compute; reflexivity | vm_compute; reflexivity ..]. Qed.

(** C10 does not hold of the same run: it returns [True] with
    [convI = 1], after two passes of the loop, with [maxIter = 2]. *)
Lemma doRetrieval_converges_in_two_passes :
  exists e',
    [/\ doRetrieval (environment mild) 2 None maxTime (fresh problem)
          = ([:: Stdout (IterationFulfilled 1)], Ok (e', true)),
        converged e',
        convI (sol e') = Some (Posz 1)
      & size (d_i2 (hist e')) = 2].
Proof. eexists; split; [vm_compute; reflexivity | vm_compute; reflexivity ..]. Qed.

(** C4 does not hold of the same run either: the loop runs through both
    passes that [maxIter = 2] allows and takes no [break], so the run ends
    because the maximum of iterations is reached; yet [doRetrieval] returns
    [True], [convI] is 1, not [-9999], and [x_op], [y_op], [S_op],
    [x_op_err], [dgf], [dgf_x] and [S_Ep] hold the values of pass 1, not
    [np.nan]. *)
Lemma doRetrieval_exhausted_with_flag_set :
  exists e1 e',
    [/\ iterations (environment mild) 2 None maxTime (fresh problem)
          = ([:: Stdout (IterationFulfilled 1)], Ok (1, e1, Continue)),
        doRetrieval (environment mild) 2 None maxTime (fresh problem)
          = ([:: Stdout (IterationFulfilled 1)], Ok (e', true)),
        converged e'
      & sol e' = Solution (Some (Posz 1)) (Val [:: 1.9800039400118399%float])
                   (Val [:: 1.9839243556143022%float])
                   (Val (array 0.0098218657377051859%float))
                   (Val [:: 0.09910532648503402%float])
                   (Val 0.99017813426229484%float)
                   (Val [:: 0.99017813426229484%float])
                   (Val (array 0.01%float))].
Proof.
by eexists; eexists; split; [vm_compute; reflexivity | vm_compute; reflexivity ..].
Qed.

End OneDimensional.

Lemma is_nan_SF v : Prim2SF v = S754_nan -> PrimFloat.is_nan v.
Proof. by move=> H; rewrite /PrimFloat.is_nan FloatAxioms.eqb_spec H. Qed.

Lemma is_infinity_SF v s : Prim2SF v = S754_infinity s -> PrimFloat.is_infinity v.
Proof.
by move=> H; rewrite /PrimFloat.is_infinity FloatAxioms.eqb_spec FloatAxioms.abs_spec H.
Qed.

Lemma eqb0_SF m : (m =? 0)%float -> exists s, Prim2SF m = S754_zero s.
Proof.
rewrite FloatAxioms.eqb_spec; case: (Prim2SF m) => [s|s| |s mm e] //=; first by exists s.
- by case: s.
- by case: s.
Qed.

(** A quotient with a zero or NaN divisor is infinite or NaN, and line 298
    replaces it by 0. *)
Lemma clean_div v m :
  (exists s, Prim2SF m = S754_zero s) \/ Prim2SF m = S754_nan ->
  clean (v / m) = 0%float.
Proof.
move=> Hm; rewrite /clean.
have : Prim2SF (v / m) = S754_nan \/ exists s, Prim2SF (v / m) = S754_infinity s.
  rewrite FloatAxioms.div_spec.
  case: Hm => [[s ->]| ->]; case: (Prim2SF v) => [sx|sx| |sx mx ex] /=; eauto.
by case=> [/is_nan_SF ->|[s /is_infinity_SF ->]] //; rewrite orbT.
Qed.

Lemma mul0_SF x :
  (exists s, Prim2SF (x * 0) = S754_zero s) \/ Prim2SF (x * 0) = S754_nan.
Proof.
rewrite FloatAxioms.mul_spec.
have -> : Prim2SF 0 = S754_zero false by vm_compute.
by case: (Prim2SF x) => [sx|sx| |sx mx ex] /=; eauto.
Qed.

(** ** Computations that print nothing *)

Lemma silent_bind {A B} (m : M A) (f : A -> M B) :
  m.1 = [::] -> (forall a, (f a).1 = [::]) -> (bind m f).1 = [::].
Proof.
case: m => l [a|e] /= -> // Hf; rewrite /bind.
by move: (Hf a); case: (f a) => l' r /= ->.
Qed.

Lemma silent_foldM {A S} (body : S -> A -> M S) acc s :
  (forall acc a, (body acc a).1 = [::]) -> (foldM body acc s).1 = [::].
Proof. by move=> Hb; elim: s acc => [|a s IH] acc //=; apply: silent_bind. Qed.

Lemma silent_assert b : (assert b).1 = [::].
Proof. by case: b. Qed.

(** ** More on [getJacobian] *)

Lemma getJacobianP E c xb y l J :
  getJacobian E c xb y = (l, Ok J) ->
  let n := size (xb_vars c) in
  exists ds jac l1 l2 l3,
    [/\ disturbances c = Ok ds,
        foldM (disturb_row c ds xb) (nseq n (nseq n PrimFloat.nan)) (xb_vars c)
          = (l1, Ok (new_xb_disturbed J)),
        foldM (forward_row E c (new_xb_disturbed J)) (nseq n (nseq (y_n c) PrimFloat.nan))
          (disturbedKeys c) = (l2, Ok (new_y_disturbed J)),
        foldM (fun jac y_key => foldM (jacobian_cell c ds xb y (new_y_disturbed J) y_key)
                                  jac (xb_vars c))
          (nseq (y_n c) (nseq n 1%float)) (y_vars c) = (l3, Ok jac)
      & let cleaned := [seq [seq clean v | v <- r] | r <- jac] in
        jacobian_x J = select_columns c cleaned (x_vars c)
        /\ jacobian_b J = select_columns c cleaned (b_vars c)].
Proof.
rewrite /getJacobian bind_assert bind_lift.
case: (~~ _) => //; case Hds: (disturbances c) => [ds|e] //.
move=> Hbind; case: (bindP Hbind) => l1 [xbd [l2 [Hxbd {}Hbind _]]].
case: (bindP Hbind) => l3 [yd [l4 [Hyd {}Hbind _]]].
case: (bindP Hbind) => l5 [jac [l6 [Hjac [_ <-] _]]] /=.
by exists ds, jac, l1, l3, l5.
Qed.

Lemma getJacobian_silent E c xb y : (getJacobian E c xb y).1 = [::].
Proof.
rewrite /getJacobian; apply: silent_bind; first exact: silent_assert.
move=> _; apply: silent_bind; first by [].
move=> ds; apply: silent_bind.
  apply: silent_foldM => acc a; rewrite /disturb_row.
  by apply: silent_bind.
move=> xbd; apply: silent_bind.
  apply: silent_foldM => acc a; rewrite /forward_row.
  by apply: silent_bind => // y0; apply: silent_bind.
move=> yd; apply: silent_bind => //.
apply: silent_foldM => acc a; apply: silent_foldM => acc' a'.
rewrite /jacobian_cell; apply: silent_bind => // d; apply: silent_bind => //.
by case: (useFactorInJac c) => //; apply: silent_assert.
Qed.

Lemma y_disturbed_sizes E c (xbd : seq vec) l yd :
  foldM (forward_row E c xbd) (nseq (size (xb_vars c)) (nseq (y_n c) PrimFloat.nan))
    (disturbedKeys c) = (l, Ok yd) ->
  all (fun r => size r == y_n c) yd.
Proof.
have Hnd : size (disturbedKeys c) = size (xb_vars c) by rewrite size_map.
move=> H.
suff [] : size yd = size (disturbedKeys c) /\ all (fun r : vec => size r == y_n c) yd by [].
move: H; rewrite -Hnd.
apply: (@foldM_inv _ _ _ (fun _ tbl => size tbl = size (disturbedKeys c)
                             /\ all (fun r : vec => size r == y_n c) tbl)).
- by rewrite size_nseq all_nseq size_nseq eqxx orbT.
- move=> done a rest tbl tbl' l' Hks [Hsz Hall].
  rewrite /forward_row bind_lift.
  case Hf: (forward E _) => [yj|e] //; rewrite bind_lift /as_series.
  case: ifP => // Hy [_ <-].
  have Hidx : index a (disturbedKeys c) < size tbl.
    by rewrite Hsz index_mem Hks mem_cat mem_head orbT.
  have Hsz' : size (set_nth [::] tbl (index a (disturbedKeys c)) yj) = size tbl.
    by rewrite size_set_nth; apply/maxn_idPr.
  split; first by rewrite Hsz'.
  apply/(all_nthP [::]) => i; rewrite Hsz' nth_set_nth /= => Hi.
  by case: ifP => // _; move/(all_nthP [::]): Hall => /(_ i Hi).
Qed.

Lemma jacobian_entry_cell c (jac : seq vec) J k j :
  uniq (xb_vars c) -> size jac = y_n c -> k < y_n c -> j < x_n c + b_n c ->
  let cleaned := [seq [seq clean v | v <- r] | r <- jac] in
  jacobian_x J = select_columns c cleaned (x_vars c) ->
  jacobian_b J = select_columns c cleaned (b_vars c) ->
  jacobian_entry c J k j = clean (cell jac k j).
Proof.
move=> Hux Hsj Hk Hj cleaned Hx Hb.
have Hcell : forall i, cell cleaned k i = clean (cell jac k i).
  by move=> i; rewrite /cell (nth_map [::]) ?Hsj //; apply: nth_map0.
rewrite /jacobian_entry Hx Hb; case: ltnP => Hjx.
- rewrite entry_select_columns ?size_map ?Hsj //.
  have -> : index (nth "" (x_vars c) j) (xb_vars c) = j.
    rewrite /xb_vars index_cat mem_nth // index_uniq //.
    by move: Hux; rewrite /xb_vars cat_uniq => /and3P [].
  exact: Hcell.
- have Hjb : j - x_n c < size (b_vars c) by rewrite ltn_subLR.
  rewrite entry_select_columns ?size_map ?Hsj //.
  have -> : index (nth "" (b_vars c) (j - x_n c)) (xb_vars c) = j.
    move: Hux; rewrite /xb_vars cat_uniq => /and3P [_ Hdisj Hub].
    rewrite index_cat; case: ifP => [Hin|_].
      by case/hasP: Hdisj; exists (nth "" (b_vars c) (j - x_n c)); rewrite ?mem_nth.
    by rewrite index_uniq // subnKC.
  exact: Hcell.
Qed.

Lemma select_columns_shape c jac names :
  let A := select_columns c jac names in
  [/\ nrows A = size jac, ncols A = size names
    & all (fun r => size r == size names) (rows A)].
Proof.
rewrite /select_columns /nrows /= size_map; split=> //.
by rewrite all_map; elim: jac => //= r jac ->; rewrite size_map eqxx.
Qed.

(** X1. For names without repetition, [getJacobian] prints nothing, and
    when it returns, [jacobian_x] has one row for each measurement and one
    column for each state variable, [jacobian_b] one row for each
    measurement and one column for each parameter, [xb_disturbed] one row
    for each variable, and [y_disturbed] one row of [y_n] values for each
    variable. *)
Theorem getJacobian_shapes (E : env) (c : config) (xb y : vec) l J :
  uniq (xb_vars c) -> uniq (y_vars c) -> size xb = x_n c + b_n c ->
  getJacobian E c xb y = (l, Ok J) ->
  [/\ l = [::],
      [/\ nrows (jacobian_x J) = y_n c, ncols (jacobian_x J) = x_n c
        & all (fun r => size r == x_n c) (rows (jacobian_x J))],
      [/\ nrows (jacobian_b J) = y_n c, ncols (jacobian_b J) = b_n c
        & all (fun r => size r == b_n c) (rows (jacobian_b J))],
      size (new_xb_disturbed J) = x_n c + b_n c
    & size (new_y_disturbed J) = x_n c + b_n c
      /\ all (fun r => size r == y_n c) (new_y_disturbed J)].
Proof.
move=> Hux Huy _ HJ.
have Hl : l = [::] by have := getJacobian_silent E c xb y; rewrite HJ.
have Hn : size (xb_vars c) = x_n c + b_n c by rewrite /xb_vars size_cat.
have [ds [jac [l1 [l2 [l3 [Hds Hxbd Hyd Hjac [Hx Hb]]]]]]] := getJacobianP HJ.
have [Hsx _] := xb_disturbed_rows Hux Hxbd.
have [Hsy _] := y_disturbed_rows Hux Hyd.
have [Hsj _] := jacobian_cells Hux Huy Hjac.
have [Hx1 Hx2 Hx3] := select_columns_shape c [seq [seq clean v | v <- r] | r <- jac] (x_vars c).
have [Hb1 Hb2 Hb3] := select_columns_shape c [seq [seq clean v | v <- r] | r <- jac] (b_vars c).
split=> //.
- by rewrite Hx; split=> //; rewrite Hx1 size_map.
- by rewrite Hb; split=> //; rewrite Hb1 size_map.
- by rewrite Hsx.
- by rewrite Hsy Hn; split=> //; apply: y_disturbed_sizes Hyd.
Qed.

(** X2. In multiplicative mode nothing guards the divisor: a factor of
    exactly 1 perturbs nothing, [getJacobian] still returns, and every
    entry of the column of that variable is 0. *)
Theorem getJacobian_unit_factor (E : env) (c : config) (xb y : vec) l J ds j k :
  uniq (xb_vars c) -> uniq (y_vars c) -> size xb = x_n c + b_n c ->
  useFactorInJac c ->
  getJacobian E c xb y = (l, Ok J) ->
  disturbances c = Ok ds ->
  dict_item ds (nth "" (xb_vars c) j) = Ok 1%float ->
  j < x_n c + b_n c -> k < y_n c ->
  jacobian_entry c J k j = 0%float.
Proof.
move=> Hux Huy _ Hf HJ Hds Hd Hj Hk.
have Hn : size (xb_vars c) = x_n c + b_n c by rewrite /xb_vars size_cat.
have [ds' [jac [l1 [l2 [l3 [Hds' Hxbd Hyd Hjac [Hx Hb]]]]]]] := getJacobianP HJ.
move: Hds'; rewrite Hds => -[Hdd]; rewrite -{}Hdd {ds'} in Hxbd Hjac.
have [Hsj Hcells] := jacobian_cells Hux Huy Hjac.
have Hjn : j < size (xb_vars c) by rewrite Hn.
have [d Hd' Hc] := Hcells k j Hk Hjn.
move: Hd'; rewrite Hd => -[Hd1]; rewrite -{}Hd1 {d} in Hc.
rewrite (jacobian_entry_cell Hux Hsj Hk Hj Hx Hb) Hc /quotient /dist Hf.
have -> : (1 - 1)%float = 0%float by vm_compute.
exact/clean_div/mul0_SF.
Qed.

Lemma disturb_rows_missing c d xb tbl ks :
  has (fun k => ~~ isSome (dict_get d k)) ks ->
  foldM (disturb_row c d xb) tbl ks = ([::], Raise KeyError).
Proof.
elim: ks tbl => [|k ks IH] tbl //=.
rewrite /disturb_row bind_lift /dict_item.
case: (dict_get d k) => [v|] //= Hks.
by rewrite bind_ret; apply: IH.
Qed.

(** X3. When the assertion of line 244 passes: a [disturbance] that is
    neither a Python float nor a dict makes [getJacobian] fail with
    [TypeError], and a dict that lacks the name of a state variable or of a
    parameter makes it fail with [KeyError], in both cases before the
    forward model is called and with nothing printed. *)
Theorem getJacobian_disturbance (E : env) (c : config) (xb y : vec) :
  size xb = x_n c + b_n c ->
  ~~ (useFactorInJac c && has (fun v => v =? 0)%float xb) ->
  (disturbance c = DOther -> getJacobian E c xb y = ([::], Raise TypeError))
  /\ (forall d, disturbance c = DDict d ->
        has (fun k => ~~ isSome (dict_get d k)) (xb_vars c) ->
        forall E', getJacobian E' c xb y = ([::], Raise KeyError)).
Proof.
move=> _ Hassert; split=> [Hd|d Hd Hmiss E'].
- by rewrite /getJacobian bind_assert Hassert bind_lift /disturbances Hd.
- rewrite /getJacobian bind_assert Hassert bind_lift /disturbances Hd.
  by rewrite disturb_rows_missing.
Qed.

(** ** More on the check of the new state *)

Lemma check_validP c i x :
  size x = x_n c ->
  exists l x',
    [/\ check_valid c i x = (l, Ok x'), size x' = x_n c
      & forall jj, jj < x_n c ->
          nth 0%float x' jj
          = if violates c x jj then nth 0%float (x_a c) jj else nth 0%float x jj].
Proof.
move=> Hsz; have [l [x' [Hfold Hl Hsize Hnth]]] := check_valid_from c i (x_vars c) 0 x.
exists l, x'; split=> //; first by rewrite -Hsz; apply: Hsize; rewrite add0n Hsz.
by move=> jj Hjj; rewrite Hnth add0n subn0 leq0n Hjj.
Qed.

(** X4. The check of lines 415-445 brings the state within the configured
    limits only as far as the prior is within them: if no component of
    [x_a] undercuts its lower limit, exceeds its upper limit or is NaN,
    then no component of the checked state does. *)
Theorem check_valid_within_limits (c : config) (i : nat) (x : vec) l x' :
  size x = x_n c ->
  (forall jj, jj < x_n c -> ~~ violates c (x_a c) jj) ->
  check_valid c i x = (l, Ok x') ->
  forall jj, jj < x_n c -> ~~ violates c x' jj.
Proof.
move=> Hsz Hprior Hcheck jj Hjj.
have [l0 [x0 [Hc0 _ Hnth]]] := check_validP i Hsz.
move: Hc0; rewrite Hcheck => -[_ Hx]; rewrite -{}Hx {x0 l0} in Hnth.
move: (Hprior jj Hjj); rewrite /violates /violates_as (Hnth jj Hjj).
by case Hv: (violates c x jj) => //; move: Hv; rewrite /violates /violates_as => ->.
Qed.

(** X5. The check is idempotent on the state: checking a checked state
    again, in any pass, returns it unchanged. *)
Theorem check_valid_idempotent (c : config) (i i' : nat) (x : vec) l x' :
  size x = x_n c ->
  check_valid c i x = (l, Ok x') ->
  exists l', check_valid c i' x' = (l', Ok x').
Proof.
move=> Hsz Hcheck.
have [l0 [x0 [Hc0 Hsz0 Hnth]]] := check_validP i Hsz.
move: Hc0; rewrite Hcheck => -[_ Hx]; rewrite -{}Hx {x0 l0} in Hsz0 Hnth.
have [l1 [x1 [Hc1 Hsz1 Hnth1]]] := check_validP i' Hsz0.
exists l1; rewrite Hc1; congr (_, Ok _).
apply: (@eq_from_nth _ 0%float); first by rewrite Hsz1.
move=> jj; rewrite Hsz1 => Hjj; rewrite (Hnth1 jj Hjj).
case Hv': (violates c x' jj) => //.
move: Hv'; rewrite /violates /violates_as (Hnth jj Hjj).
by case Hv: (violates c x jj) => //; move: Hv; rewrite /violates /violates_as => ->.
Qed.

(** ** The lists of a run *)

Lemma well_sizedP n h :
  reflect [/\ [/\ size (K_i h) = n, size (K_b_i h) = n, size (x_i h) = n.+1,
                  size (y_i h) = n.+1 & size (dgf_i h) = n]
            & [/\ size (H_i h) = n, size (A_i h) = n, size (d_i2 h) = n,
                  size (S_aposterior_i h) = n & size (gam_i h) = n]]
          (well_sized n h).
Proof.
apply: (iffP idP).
- case/and5P => /eqP H1 /eqP H2 /eqP H3 /eqP H4.
  by case/and5P => /eqP H5 /eqP H6 /eqP H7 /eqP H8 /andP [/eqP H9 /eqP H10].
- move=> [[H1 H2 H3 H4 H5] [H6 H7 H8 H9 H10]].
  by rewrite /well_sized H1 H2 H3 H4 H5 H6 H7 H8 H9 H10 !eqxx.
Qed.

Lemma size_set_nth_lt {A} (x0 : A) (s : seq A) i a :
  i < size s -> size (set_nth x0 s i a) = size s.
Proof. by move=> Hi; rewrite size_set_nth; apply/maxn_idPr. Qed.

Lemma well_sized_record n h i it :
  i < n -> well_sized n h -> well_sized n (record h i it).
Proof.
move=> Hi /well_sizedP [[H1 H2 H3 H4 H5] [H6 H7 H8 H9 H10]].
apply/well_sizedP; rewrite /record /=.
by rewrite !size_set_nth_lt ?H1 ?H2 ?H3 ?H4 ?H5 ?H6 ?H7 ?H8 ?H9 ?H10 // ltnS ltnW.
Qed.

Lemma well_sized_truncate n h i :
  i < n -> well_sized n h -> well_sized i.+1 (truncate h i).
Proof.
move=> Hi /well_sizedP [[H1 H2 H3 H4 H5] [H6 H7 H8 H9 H10]].
apply/well_sizedP; rewrite /truncate /=.
by rewrite !size_takel ?H1 ?H2 ?H3 ?H4 ?H5 ?H6 ?H7 ?H8 ?H9 ?H10.
Qed.

Lemma initial_gam_size c maxIter l gam :
  initial_gam c maxIter = (l, Ok gam) -> size gam = maxIter.
Proof.
rewrite /initial_gam; case: (gammaFactor c) => [[|g gs]|].
- by case=> _ <-; rewrite size_nseq.
- rewrite bind_assert; case: ifP => // Hs [_ <-].
  by rewrite -cat_cons size_cat size_nseq subnKC.
- by case=> _ <-; rewrite size_nseq.
Qed.

Lemma prepare_sizes E maxIter x_0 e l e0 :
  prepare E maxIter x_0 e = (l, Ok e0) -> well_sized maxIter (hist e0).
Proof.
rewrite /prepare bind_assert; case: (0 < maxIter) => // H.
case: (bindP H) => ? [Sa_inv [? [_ {}H _]]].
case: (bindP H) => ? [gam [? [/initial_gam_size Hg {}H _]]].
case: (bindP H) => ? [x0 [? [_ {}H _]]].
case: (bindP H) => ? [y [? [_ {}H _]]].
case: (bindP H) => ? [y0 [? [_ {}H _]]].
case: H => _ <-; apply/well_sizedP => /=.
by rewrite !size_nseq.
Qed.

Lemma loop_sizes E maxTime n i e l j e' v m :
  loop E maxTime n i e = (l, Ok (j, e', v)) ->
  i + n < m -> well_sized m (hist e) ->
  [/\ i <= j, j <= i + n & well_sized m (hist e')].
Proof.
elim: n i e l => [|n IH] i e l /= Hloop Him Hws.
- case: (bindP Hloop) => l1 [e1 [l2 [Hnum {}Hloop _]]].
  case: (bindP Hloop) => l3 [[e2 v2] [l4 [Hctl Hret _]]].
  have [it _ He1] := numericsP Hnum.
  have [He2 _] := controlP Hctl.
  have [Hj He'] : i = j /\ e2 = e' by case: v2 Hret {Hctl} => -[].
  rewrite -Hj -He' addn0 leqnn He2 He1 /=; split=> //.
  by apply: well_sized_record => //; rewrite addn0 in Him.
- case: (bindP Hloop) => l1 [e1 [l2 [Hnum {}Hloop _]]].
  case: (bindP Hloop) => l3 [[e2 v2] [l4 [Hctl Hret _]]].
  have [it _ He1] := numericsP Hnum.
  have [He2 _] := controlP Hctl.
  have Hws2 : well_sized m (hist e2).
    rewrite He2 He1 /=; apply: well_sized_record => //.
    by apply: leq_ltn_trans Him; apply: leq_addr.
  case: v2 Hret {Hctl} => /= Hret; first last.
  + by case: Hret => _ <- <- _; rewrite leqnn leq_addr.
  + by case: Hret => _ <- <- _; rewrite leqnn leq_addr.
  + by case: Hret => _ <- <- _; rewrite leqnn leq_addr.
  + have [] := IH _ _ _ Hret _ Hws2; first by rewrite addSnnS.
    by move=> Hij Hjn Hws'; rewrite (ltnW Hij) -addSnnS Hjn.
Qed.

(** X6. When [doRetrieval] returns, the lists [K_i], [K_b_i], [dgf_i],
    [H_i], [A_i], [d_i2], [S_aposterior_i] and [gam_i] all hold one entry
    for each pass that ran, at least one and at most [maxIter], and [x_i]
    and [y_i] hold one entry more. *)
Theorem doRetrieval_sizes (E : env) (maxIter : nat) (x_0 : option vec)
    (maxTime : float) (e : engine) l e' b :
  doRetrieval E maxIter x_0 maxTime e = (l, Ok (e', b)) ->
  exists n, [/\ 0 < n, n <= maxIter & well_sized n (hist e')].
Proof.
move=> H; have [i [e1 [v [Hit He' _ Hi _]]]] := doRetrievalP H.
case: (bindP Hit) => l3 [e0 [l4 [Hprep Hloop _]]].
have [Hmax _ _ _ _] := prepareP Hprep.
have [] := loop_sizes Hloop _ (prepare_sizes Hprep); first by rewrite add0n ltn_predL.
move=> _ _ Hws; exists i.+1; split=> //.
by rewrite He' /=; apply: well_sized_truncate Hws.
Qed.

(** X7. When [doRetrieval] returns [True], [convI] is the last index of the
    per-iteration lists, it is at least 1 and less than [maxIter], and
    [x_i] holds one state more than [x_op = x_i[convI]]: the update computed
    in the last pass. *)
Theorem doRetrieval_converged_index (E : env) (maxIter : nat) (x_0 : option vec)
    (maxTime : float) (e : engine) l e' :
  doRetrieval E maxIter x_0 maxTime e = (l, Ok (e', true)) ->
  exists i,
    [/\ convI (sol e') = Some (Posz i), 0 < i < maxIter,
        well_sized i.+1 (hist e')
      & x_op (sol e') = Val (nth [::] (x_i (hist e')) i) /\ size (x_i (hist e')) = i.+2].
Proof.
move=> H; have [i [e1 [v [Hit He' Hb Hi [_ _ _ _ Hend]]]]] := doRetrievalP H.
have [HconvI [Hx _ _] _] := accepted H Hit.
case: (bindP Hit) => l3 [e0 [l4 [Hprep Hloop _]]].
have [Hmax _ _ _ _] := prepareP Hprep.
have [] := loop_sizes Hloop _ (prepare_sizes Hprep); first by rewrite add0n ltn_predL.
move=> _ _ Hws.
have Hws' : well_sized i.+1 (hist e') by rewrite He' /=; apply: well_sized_truncate Hws.
exists i; split=> //; last first.
  by split=> //; case/well_sizedP: Hws' => -[].
rewrite Hi andbT.
case: v Hend {Hit Hloop} => /=; rewrite -?Hb //.
- by case=> /esym /andP []; rewrite lt0n.
- by case=> _ /ltnW.
- by case.
Qed.

(** ** Runs do not depend on earlier runs *)

Lemma fmap_bind {A B C} (f : A -> B) (m : M A) (k : B -> M C) :
  bind (fmap f m) k = bind m (fun a => k (f a)).
Proof. by case: m => l [a|x]. Qed.

Lemma bind_fmap {A B C} (f : B -> C) (m : M A) (k : A -> M B) :
  bind m (fun a => fmap f (k a)) = fmap f (bind m k).
Proof. by case: m => l [a|x] //; rewrite /bind /fmap; case: (k a) => l' []. Qed.

Lemma numerics_scratch E i xbd yd s e :
  numerics E i (with_scratch xbd yd s e) = fmap (with_sol s) (numerics E i e).
Proof.
rewrite /numerics -bind_fmap.
by have -> : step E (with_scratch xbd yd s e) i = step E e i by [].
Qed.

Lemma control_sol E maxTime i s e :
  control E maxTime i (with_sol s e)
  = fmap (fun r => (with_sol s r.1, r.2)) (control E maxTime i e).
Proof.
rewrite /control /=; case: (converged e) => //.
case: (_ <? _)%float => //; case: (i != 0) => //.
rewrite /threshold; case: (_ =? _)%float => //=.
rewrite !bind_lift; case: (criterion _ _ _) => //.
by case: (_ && _).
Qed.

Lemma bind_ext {A B} (m : M A) (f g : A -> M B) :
  (forall a, f a = g a) -> bind m f = bind m g.
Proof. by case: m => l [a|x] // Hfg; rewrite /bind Hfg. Qed.

Lemma loop_scratch E maxTime n i xbd yd s e :
  loop E maxTime n i (with_scratch xbd yd s e)
  = fmap (fun r => (r.1.1, with_sol s r.1.2, r.2)) (loop E maxTime n i e).
Proof.
elim: n i xbd yd e => [|n IH] i xbd yd e /=.
- rewrite numerics_scratch fmap_bind -bind_fmap.
  apply: bind_ext => e1; rewrite control_sol fmap_bind -bind_fmap.
  by apply: bind_ext => -[e2 v] /=; case: v.
- rewrite numerics_scratch fmap_bind -bind_fmap.
  apply: bind_ext => e1; rewrite control_sol fmap_bind -bind_fmap.
  apply: bind_ext => -[e2 v] /=; case: v => //.
  exact: IH.
Qed.

Lemma finalize_sol i s e : finalize i (with_sol s e) = finalize i e.
Proof. by []. Qed.

Lemma prepare_scratch E maxIter x_0 e1 e2 :
  cfg e1 = cfg e2 -> diag e1 = diag e2 ->
  prepare E maxIter x_0 e1
  = fmap (with_scratch (xb_disturbed e1) (y_disturbed e1) (sol e1))
         (prepare E maxIter x_0 e2).
Proof.
move=> Hc Hd; rewrite /prepare Hc Hd.
rewrite -bind_fmap; apply: bind_ext => _.
rewrite -bind_fmap; apply: bind_ext => Sa_inv.
rewrite -bind_fmap; apply: bind_ext => gam.
rewrite -bind_fmap; apply: bind_ext => x0.
rewrite -bind_fmap; apply: bind_ext => y.
by rewrite -bind_fmap; apply: bind_ext => y0.
Qed.

Lemma doRetrieval_restart E maxIter x_0 maxTime e1 e2 :
  cfg e1 = cfg e2 -> diag e1 = diag e2 ->
  doRetrieval E maxIter x_0 maxTime e1 = doRetrieval E maxIter x_0 maxTime e2.
Proof.
move=> Hc Hd; rewrite /doRetrieval /iterations (prepare_scratch _ _ _ Hc Hd).
rewrite fmap_bind.
set m := prepare _ _ _ _.
have -> : (e0 <- m ;; loop E maxTime maxIter.-1 0
             (with_scratch (xb_disturbed e1) (y_disturbed e1) (sol e1) e0))
          = fmap (fun r => (r.1.1, with_sol (sol e1) r.1.2, r.2))
                 (e0 <- m ;; loop E maxTime maxIter.-1 0 e0).
  by rewrite -bind_fmap; apply: bind_ext => e0; apply: loop_scratch.
by rewrite fmap_bind.
Qed.

Lemma doRetrieval_frame E maxIter x_0 maxTime e l e' b :
  doRetrieval E maxIter x_0 maxTime e = (l, Ok (e', b)) ->
  cfg e' = cfg e /\ diag e' = diag e.
Proof.
move=> H; case: (bindP H) => l1 [[[i e1] v] [l2 [Hit [_ <- _] _]]].
case: (bindP Hit) => l3 [e0 [l4 [Hprep Hloop _]]].
have [_ Hc0 Hcfg0 _ Hd0] := prepareP Hprep.
have [] := loopP Hloop; rewrite ?Hc0 //.
by move=> _ [Hcfg _ _ Hdiag] _ _ _; rewrite /finalize /= Hcfg Hdiag Hcfg0 Hd0.
Qed.

(** X8. [doRetrieval] starts from scratch: its outcome depends on the
    constructor's arguments only, not on what an earlier run left in the
    object.  So running it a second time with the same arguments prints
    the same, returns the same flag and leaves the object as it is. *)
Theorem doRetrieval_again (E : env) (maxIter : nat) (x_0 : option vec)
    (maxTime : float) (e : engine) l e' b :
  doRetrieval E maxIter x_0 maxTime e = (l, Ok (e', b)) ->
  doRetrieval E maxIter x_0 maxTime e' = (l, Ok (e', b)).
Proof.
move=> H; have [Hc Hd] := doRetrieval_frame H.
by rewrite (doRetrieval_restart _ _ _ _ Hc Hd).
Qed.

(** ** The first steps of a run *)

(** X9. The time budget is tested only after a pass is complete: when the
    clock is past [maxTime] at the first test, a run that returns has made
    exactly one pass, with the Jacobian and the update computed; it prints
    the notice for that pass last and returns [False]. *)
Theorem doRetrieval_time_exceeded (E : env) (maxIter : nat) (x_0 : option vec)
    (maxTime : float) (e : engine) l e' b :
  (maxTime <? elapsed E 0)%float ->
  doRetrieval E maxIter x_0 maxTime e = (l, Ok (e', b)) ->
  [/\ b = false, well_sized 1 (hist e')
    & exists l0, l = l0 ++ [:: Stdout (IterationTimeExceeded 0)]].
Proof.
move=> Ht H; case: (bindP H) => l1 [[[i e1] v] [l2 [Hit [Hl2 He' Hb] Hl]]].
case: (bindP Hit) => l3 [e0 [l4 [Hprep Hloop Hl1]]].
have [Hmax Hc0 Hcfg0 Hsol0 Hd0] := prepareP Hprep.
have Hws0 := prepare_sizes Hprep.
have Hloop' : loop E maxTime maxIter.-1 0 e0
    = (n1 <- numerics E 0 e0 ;; r <- control E maxTime 0 n1 ;;
       match r.2, maxIter.-1 with
       | Continue, n'.+1 => loop E maxTime n' 1 r.1
       | v, _ => ret (0, r.1, v)
       end) by case: (maxIter.-1).
move: Hloop; rewrite Hloop' => {}Hloop.
case: (bindP Hloop) => l5 [n1 [l6 [Hnum {}Hloop Hl4]]].
have [it Hstep Hn1] := numericsP Hnum.
have Hctl : control E maxTime 0 n1
            = ([:: Stdout (IterationTimeExceeded 0)],
               Ok (set_converged n1 false, BreakTimeExceeded)).
  by rewrite /control Hn1 /= Hc0 Ht.
move: Hloop; rewrite Hctl /bind /= => -[Hl6 Hi He1 Hv].
have Hh : hist e' = truncate (record (hist e0) 0 it) 0.
  by rewrite -He' -He1 -Hi Hn1.
split.
- by rewrite -Hb -He1.
- by rewrite Hh; apply: (well_sized_truncate Hmax); apply: well_sized_record.
- by exists (l3 ++ l5); rewrite Hl Hl1 Hl4 -Hl6 -Hl2 cats0 catA.
Qed.

(** X10. [doRetrieval] with [maxIter = 0] fails its first assertion with
    nothing done; and with a [gammaFactor] longer than [maxIter] it fails
    the assertion of line 343, after the inversion of [S_a] and before
    the forward model is called. *)
Theorem doRetrieval_asserts (E : env) (x_0 : option vec) (maxTime : float)
    (e : engine) :
  doRetrieval E 0 x_0 maxTime e = ([::], Raise AssertionError)
  /\ (forall maxIter g l0 Sa_inv,
        gammaFactor (cfg e) = Some g -> 0 < maxIter < size g ->
        invertMatrix E (S_a (cfg e)) true = (l0, Ok Sa_inv) ->
        doRetrieval E maxIter x_0 maxTime e = (l0, Raise AssertionError)).
Proof.
split=> // maxIter g l0 Sa_inv Hg /andP [Hmax Hsz] Hinv.
rewrite /doRetrieval /iterations /prepare bind_assert Hmax Hinv /initial_gam Hg.
case: g Hsz {Hg} => [|g gs] // Hsz.
by rewrite leqNgt Hsz /bind /= cats0.
Qed.

Lemma loop_start E maxTime n i e l j e' v :
  loop E maxTime n i e = (l, Ok (j, e', v)) ->
  [/\ nth [::] (x_i (hist e')) 0 = nth [::] (x_i (hist e)) 0,
      nth [::] (y_i (hist e')) 0 = nth [::] (y_i (hist e)) 0
    & gam_i (hist e') = gam_i (hist e)].
Proof.
elim: n i e l => [|n IH] i e l /= Hloop.
- case: (bindP Hloop) => l1 [e1 [l2 [Hnum {}Hloop _]]].
  case: (bindP Hloop) => l3 [[e2 v2] [l4 [Hctl Hret _]]].
  have [it _ He1] := numericsP Hnum.
  have [He2 _] := controlP Hctl.
  have He' : e2 = e' by case: v2 Hret {Hctl} => -[].
  by rewrite -He' He2 He1 /= !nth_set_nth.
- case: (bindP Hloop) => l1 [e1 [l2 [Hnum {}Hloop _]]].
  case: (bindP Hloop) => l3 [[e2 v2] [l4 [Hctl Hret _]]].
  have [it _ He1] := numericsP Hnum.
  have [He2 _] := controlP Hctl.
  have Hh : hist e2 = record (hist e) i it by rewrite He2 He1.
  have H2 : [/\ nth [::] (x_i (hist e2)) 0 = nth [::] (x_i (hist e)) 0,
                nth [::] (y_i (hist e2)) 0 = nth [::] (y_i (hist e)) 0
              & gam_i (hist e2) = gam_i (hist e)].
    by rewrite Hh /= !nth_set_nth.
  case: v2 Hret {Hctl} => /= Hret; first last.
  + by case: Hret => _ _ <- _.
  + by case: Hret => _ _ <- _.
  + by case: Hret => _ _ <- _.
  + have [Hx Hy Hg] := IH _ _ _ Hret.
    by case: H2 => <- <- <-.
Qed.

(** X11. The lists of a run start from the first guess: [x_i[0]] is [x_0],
    or the prior [x_a] when no [x_0] is given, [y_i[0]] is the forward
    model at that state with the parameters [b_p], and [gam_i] holds the
    entries of [gammaFactor], followed by ones, for the passes that ran. *)
Theorem doRetrieval_start (E : env) (maxIter : nat) (x_0 : option vec)
    (maxTime : float) (e : engine) l e' b :
  doRetrieval E maxIter x_0 maxTime e = (l, Ok (e', b)) ->
  let first := if x_0 is Some x then x else x_a (cfg e) in
  let gamma := if gammaFactor (cfg e) is Some g then g else [::] in
  [/\ nth [::] (x_i (hist e')) 0 = first,
      forward E (first ++ b_p (cfg e)) = Ok (nth [::] (y_i (hist e')) 0)
    & forall k, k < size (gam_i (hist e')) ->
        nth 1%float (gam_i (hist e')) k = nth 1%float gamma k].
Proof.
move=> H first gamma; have [i [e1 [v [Hit He' _ Hi _]]]] := doRetrievalP H.
case: (bindP Hit) => l3 [e0 [l4 [Hprep Hloop _]]].
have [Hx Hy Hg] := loop_start Hloop.
have Hh : hist e' = truncate (hist e1) i by rewrite He'.
move: Hprep; rewrite /prepare bind_assert; case: (0 < maxIter) => // Hprep.
case: (bindP Hprep) => ? [Sa_inv [? [_ {}Hprep _]]].
case: (bindP Hprep) => ? [gam [? [Hgam {}Hprep _]]].
case: (bindP Hprep) => ? [x0 [? [Hx0 {}Hprep _]]].
case: (bindP Hprep) => ? [y [? [Hfwd {}Hprep _]]].
case: (bindP Hprep) => ? [y0 [? [Hy0 {}Hprep _]]].
case: Hprep => _ He0; rewrite -He0 /= in Hx Hy Hg.
have Hfirst : x0 = first.
  move: Hx0; rewrite /first; case: (x_0) => [x|]; last by case.
  by rewrite /lift /as_series; case: ifP => // _ [_ <-].
have Hyy : y0 = y.
  by move: Hy0; rewrite /lift /as_series; case: ifP => // _ [_ <-].
split.
- by rewrite Hh /= nth_take // Hx -Hfirst.
- rewrite Hh /= nth_take // Hy Hyy -Hfirst.
  by move: Hfwd; rewrite /lift => -[_ ->].
- move=> k; rewrite Hh /= size_take Hg => Hk.
  have Hki : k < i.+1.
    by move: Hk; case: (ltnP i.+1 (size gam)) => // Hle Hk; apply: leq_trans Hk Hle.
  rewrite nth_take //.
  move: Hgam; rewrite /initial_gam /gamma.
  case: (gammaFactor (cfg e)) => [[|g gs]|].
  + by case=> _ <-; rewrite nth_nseq nth_nil if_same.
  + rewrite bind_assert; case: ifP => // _ [_ <-].
    rewrite -cat_cons nth_cat; case: ifP => // Hlt; rewrite nth_nseq if_same.
    by rewrite nth_default // leqNgt Hlt.
  + by case=> _ <-; rewrite nth_nseq nth_nil if_same.
Qed.

(** X12. When [doRetrieval] returns [True] with [convI] below
    [maxIter - 1], the loop ended by the break of line 465: [convI] is at
    least 2, the criterion of lines 479-481 was met in pass [convI - 1] and
    in no pass before it, [x_op] is [x_i[convI]], and the Jacobians, the
    posterior covariance and the averaging kernel stored at [convI] were
    computed at [x_op] with its measurement [y_op]. *)
Theorem doRetrieval_confirmation_pass (E : env) (maxIter : nat) (x_0 : option vec)
    (maxTime : float) (e : engine) l e' (i : nat) :
  doRetrieval E maxIter x_0 maxTime e = (l, Ok (e', true)) ->
  convI (sol e') = Some (Posz i) -> i.+1 < maxIter ->
  let h := hist e' in
  [/\ 1 < i,
      satisfied (cfg e') h i.-1 /\ (forall k, k < i.-1 -> ~~ satisfied (cfg e') h k),
      x_op (sol e') = Val (nth [::] (x_i h) i) /\ y_op (sol e') = Val (nth [::] (y_i h) i)
    & evaluated_at E (cfg e') (S_a_inv e') (nth 0%float (gam_i h) i)
        (nth [::] (x_i h) i) (nth [::] (y_i h) i)
        (nth empty_array (K_i h) i) (nth empty_array (K_b_i h) i)
        (nth empty_array (S_aposterior_i h) i) (nth empty_array (A_i h) i)].
Proof.
move=> H HconvI Hlt h.
have [j [e1 [v [Hit He' Hb Hj [_ _ _ Hcont Hend]]]]] := doRetrievalP H.
have [Hc [Hx Hy _] Hev] := accepted H Hit.
have Hij : j = i by move: Hc; rewrite HconvI => -[].
rewrite {}Hij in Hit Hcont Hend Hx Hy Hev.
case: v Hit Hcont Hend => Hit Hcont Hend.
- by move: Hlt; rewrite (Hcont erefl) prednK ?ltnn //; apply: leq_ltn_trans Hj.
- have [_ Hi Hs Hnot] := confirmed H Hit.
  by split.
- by move: Hend; rewrite /= -Hb.
- by case: Hend; rewrite -Hb.
Qed.

(** ** The diagnostics and their attributes *)

(** What a call of the property [y_a] returns and leaves. *)
Lemma y_aP (E : env) (e : engine) l e1 y :
  y_a E e = (l, Ok (e1, y)) ->
  [/\ l = [::], y_a_cache (diag e1) = Some y,
      e1 = set_diag e (Diagnostics (Some y) (linearity (diag e))
                         (trueLinearity (diag e)) (trueLinearityChi2 (diag e))
                         (trueLinearityChi2Critical (diag e)) (chi2Results (diag e)))
    & forall E', y_a E' e1 = ([::], Ok (e1, y))].
Proof.
rewrite /y_a; case Hc: (y_a_cache (diag e)) => [y0|].
- case=> <- <- <-; split=> //; last by move=> E'; rewrite Hc.
  by case: e Hc => c cv Sa xbd yd h s [ya li tl tc tcc cr] /= ->.
- rewrite bind_lift; case: (forward E _) => [y1|x] //.
  rewrite bind_lift; case: (as_series _ _) => [y2|x] //.
  by case=> <- <- <-.
Qed.

(** X13. The property [y_a] evaluates the forward model at the prior once:
    it prints nothing, stores what it returns in [_y_a], changes nothing
    else, and from then on returns the stored value without calling the
    forward model, whatever that would now return. *)
Theorem y_a_cached (E : env) (e : engine) l e1 y :
  y_a E e = (l, Ok (e1, y)) ->
  [/\ l = [::], y_a_cache (diag e1) = Some y,
      e1 = set_diag e (Diagnostics (Some y) (linearity (diag e))
                         (trueLinearity (diag e)) (trueLinearityChi2 (diag e))
                         (trueLinearityChi2Critical (diag e)) (chi2Results (diag e)))
    & forall E', y_a E' e1 = ([::], Ok (e1, y))].
Proof. exact: y_aP. Qed.

Lemma chiSquareTestP E e significance l e1 r :
  chiSquareTest E e significance = (l, Ok (e1, r)) ->
  exists2 res, chi2Results (diag e1) = Some res
  & r = ([seq (p.1 <? p.2)%float | p <- res], [seq p.1 | p <- res], [seq p.2 | p <- res]).
Proof.
rewrite /chiSquareTest => H.
case: (bindP H) => l1 [e2 [l2 [_ {}H _]]].
move: H; rewrite bind_lift; case Hres: (chi2Results (diag e2)) => [res|] //=.
by case=> _ <- <-; exists res.
Qed.

Lemma doRetrieval_flag E maxIter x_0 maxTime e l e' b :
  doRetrieval E maxIter x_0 maxTime e = (l, Ok (e', b)) -> converged e' = b.
Proof. by move=> H; case: (bindP H) => l1 [r [l2 [_ [_ <- <-] _]]]. Qed.

(** X14. [doRetrieval] leaves the attributes of the diagnostics alone, and
    [chiSquareTest] on an object that has not converged reads
    [chi2Results] as it finds it.  So after a run that did not converge,
    [chiSquareTest] prints "did not converge" and returns the three columns
    that its last call returned, for the earlier run. *)
Theorem chiSquareTest_stale (E : env) (e : engine) (significance : float) l1 e1 r
    (E' : env) (maxIter : nat) (x_0 : option vec) (maxTime : float) l2 e2
    (E'' : env) (significance' : float) :
  chiSquareTest E e significance = (l1, Ok (e1, r)) ->
  doRetrieval E' maxIter x_0 maxTime e1 = (l2, Ok (e2, false)) ->
  chiSquareTest E'' e2 significance' = ([:: Stdout DidNotConverge], Ok (e2, r)).
Proof.
move=> /chiSquareTestP [res Hres ->] H.
have [_ Hd] := doRetrieval_frame H.
have Hc := doRetrieval_flag H.
by rewrite chiSquareTest_not_converged ?Hc // Hd Hres.
Qed.

Lemma linearityTestP E e maxErrorPatterns significance atol l e1 out :
  linearityTest E e maxErrorPatterns significance atol = (l, Ok (e1, out)) ->
  [/\ cfg e1 = cfg e, y_a_cache (diag e1) = y_a_cache (diag e),
      chi2Results (diag e1) = chi2Results (diag e)
    & exists t, trueLinearity (diag e1) = Some t].
Proof.
rewrite /linearityTest; case: (converged e) => /=.
- move=> H; case: (bindP H) => ? [S [? [_ {}H _]]].
  case: (bindP H) => ? [[lamb II] [? [_ {}H _]]].
  case: (bindP H) => ? [S_Ep_inv [? [_ {}H _]]].
  move: H; case: ifP => _ H.
    case: (bindP H) => ? [_ [? [_ {}H _]]]; move: H; rewrite bind_lift.
    by case Ht: (trueLinearity (diag e)) => [t|] // [_ <- _]; split=> //; exists t.
  case: (bindP H) => ? [x_conv [? [_ {}H _]]].
  case: (bindP H) => ? [y_conv [? [_ {}H _]]].
  case: (bindP H) => ? [K [? [_ {}H _]]].
  case: (bindP H) => ? [lin [? [_ {}H _]]].
  case: (bindP H) => ? [r [? [_ {}H _]]].
  case: (bindP H) => ? [res [? [_ [_ <- _] _]]].
  by split=> //; exists r.2.
- rewrite /print bind_emit bind_lift.
  by case Ht: (trueLinearity (diag e)) => [t|] // [_ <- _]; split=> //; exists t.
Qed.

(** X15. After a run that did not converge, [linearityTest] prints "did not
    converge", sets [linearity], [trueLinearityChi2] and
    [trueLinearityChi2Critical] to NaN, and returns an array of NaN
    together with the [trueLinearity] that its last call, for the earlier
    run, stored. *)
Theorem linearityTest_stale (E : env) (e : engine) (m : option nat)
    (significance atol : float) l1 e1 out
    (E' : env) (maxIter : nat) (x_0 : option vec) (maxTime : float) l2 e2
    (E'' : env) (m' : option nat) (significance' atol' : float) :
  linearityTest E e m significance atol = (l1, Ok (e1, out)) ->
  doRetrieval E' maxIter x_0 maxTime e1 = (l2, Ok (e2, false)) ->
  exists t e3,
    [/\ trueLinearity (diag e1) = Some t,
        linearityTest E'' e2 m' significance' atol'
        = ([:: Stdout DidNotConverge],
           Ok (e3, LinearityEarly (nseq (x_n (cfg e)) (0 * PrimFloat.nan)%float) t)),
        linearity (diag e3) = Some (nseq (x_n (cfg e)) (0 * PrimFloat.nan)%float)
      & trueLinearityChi2 (diag e3) = Some PrimFloat.nan
        /\ trueLinearityChi2Critical (diag e3) = Some PrimFloat.nan].
Proof.
move=> /linearityTestP [Hcfg _ _ [t Ht]] H.
have [Hc Hd] := doRetrieval_frame H.
have Hf := doRetrieval_flag H.
exists t; eexists; split; first exact: Ht.
- by rewrite linearityTest_not_converged ?Hf // Hd Ht Hc Hcfg.
- by [].
- by [].
Qed.

Lemma YObservationPriorP E e significance atol l e1 r :
  chiSquareTestYObservationPrior E e significance atol = (l, Ok (e1, r)) ->
  exists y, y_a E e = ([::], Ok (e1, y)).
Proof.
rewrite /chiSquareTestYObservationPrior bind_assert; case: (converged e) => // H.
case: (bindP H) => l1 [[e2 ya] [l2 [Hya {}H _]]].
have [Hl1 _ _ _] := y_aP Hya.
case: (bindP H) => ? [Sep [? [_ {}H _]]].
case: (bindP H) => ? [K [? [_ {}H _]]].
case: (bindP H) => ? [res [? [_ [_ <- _] _]]].
by exists ya; rewrite Hya Hl1.
Qed.

Lemma YOptimalPrior_cached E e e1 y significance atol :
  y_a E e = ([::], Ok (e1, y)) ->
  chiSquareTestYOptimalPrior E e1 significance atol
  = chiSquareTestYOptimalPrior E e significance atol.
Proof.
move=> Hya; have [_ _ He1 Hidem] := y_aP Hya.
by rewrite /chiSquareTestYOptimalPrior (Hidem E) Hya He1.
Qed.

Lemma YOptimalPriorP E e significance atol l e1 r :
  chiSquareTestYOptimalPrior E e significance atol = (l, Ok (e1, r)) ->
  exists y, y_a E e = ([::], Ok (e1, y)).
Proof.
rewrite /chiSquareTestYOptimalPrior bind_assert; case: (converged e) => // H.
case: (bindP H) => ? [y_conv [? [_ {}H _]]].
case: (bindP H) => l1 [[e2 ya] [l2 [Hya {}H _]]].
have [Hl1 _ _ _] := y_aP Hya.
case: (bindP H) => ? [Sep [? [_ {}H _]]].
case: (bindP H) => ? [K [? [_ {}H _]]].
case: (bindP H) => ? [Sinv [? [_ {}H _]]].
case: (bindP H) => ? [res [? [_ [_ <- _] _]]].
by exists ya; rewrite Hya Hl1.
Qed.

Lemma XOptimalPrior_cached E e e1 y significance atol :
  y_a E e = ([::], Ok (e1, y)) ->
  chiSquareTestXOptimalPrior E e1 significance atol
  = chiSquareTestXOptimalPrior E e significance atol.
Proof. by move=> Hya; have [_ _ -> _] := y_aP Hya. Qed.

(** X16. On a converged object, [chiSquareTest] returns the results of the
    four single tests on that object, with the default tolerance, in the
    order Y_Optimal_vs_Observation, Y_Observation_vs_Prior,
    Y_Optimal_vs_Prior, X_Optimal_vs_Prior: their chi-square values, their
    critical values, and for each whether the value is below the critical
    value; and it stores the four pairs in [chi2Results]. *)
Theorem chiSquareTest_converged (E : env) (e : engine) (significance : float)
    l e1 passed vals crits :
  converged e ->
  chiSquareTest E e significance = (l, Ok (e1, (passed, vals, crits))) ->
  exists (r1 r2 r3 r4 : float * float) (ea : engine),
    [/\ exists la, chiSquareTestYOptimalObservation E e significance default_atol
                   = (la, Ok r1),
        exists lb, chiSquareTestYObservationPrior E e significance default_atol
                   = (lb, Ok (ea, r2)),
        exists lc, chiSquareTestYOptimalPrior E e significance default_atol
                   = (lc, Ok (ea, r3)),
        exists ld, chiSquareTestXOptimalPrior E e significance default_atol
                   = (ld, Ok r4)
      & [/\ vals = [:: r1.1; r2.1; r3.1; r4.1],
            crits = [:: r1.2; r2.2; r3.2; r4.2],
            passed = [:: (r1.1 <? r1.2)%float; (r2.1 <? r2.2)%float;
                         (r3.1 <? r3.2)%float; (r4.1 <? r4.2)%float]
          & chi2Results (diag e1) = Some [:: r1; r2; r3; r4]]].
Proof.
move=> Hc; rewrite /chiSquareTest Hc /= => H.
case: (bindP H) => l1 [e2 [l2 [{}H Hres _]]].
case: (bindP H) => la [r1 [? [H1 {}H _]]].
case: (bindP H) => lb [[ea r2] [? [H2 {}H _]]].
case: (bindP H) => lc [[eb r3] [? [H3 {}H _]]].
case: (bindP H) => ld [r4 [? [H4 [_ He2] _]]] {H}.
have [y Hya] := YObservationPriorP H2.
have [y' Hyb] := YOptimalPriorP H3.
have [_ _ _ Hidem] := y_aP Hya.
move: Hyb; rewrite /= (Hidem E) => -[Hab _]; rewrite -{}Hab {eb} in H3 H4 He2.
move: H3; rewrite /= (YOptimalPrior_cached _ _ Hya) => H3.
move: H4; rewrite /= (XOptimalPrior_cached _ _ Hya) => H4.
move: Hres; rewrite -He2 /= => -[_ <- <- <- <-].
exists r1, r2, r3, r4, ea; split=> //.
- by exists la.
- by exists lb.
- by exists lc.
- by exists ld.
Qed.

Lemma has_negative lamb :
  has (fun v => v <? 0)%float [seq (if isclose0 v then 0%float else v) | v <- lamb]
  = has (fun v => ~~ isclose0 v && (v <? 0)%float) lamb.
Proof. by rewrite has_map; apply: eq_has => v /=; case: (isclose0 v). Qed.

(** X17. On a converged object whose posterior covariance has an
    eigenvalue below zero that is not close to zero, [linearityTest]
    prints the notice of lines 611-613 and then returns the attribute
    [trueLinearity]: on the first call, when that attribute does not exist
    yet, it fails with [AttributeError]. *)
Theorem linearityTest_negative_eigenvalue (E : env) (e : engine) (m : option nat)
    (significance atol : float) S lamb II l0 S_Ep_inv :
  converged e ->
  at_convI empty_array (S_aposterior_i (hist e)) e = Ok S ->
  np_linalg_eig E S = Ok (lamb, II) ->
  invertMatrix E (S_y (cfg e)) true = (l0, Ok S_Ep_inv) ->
  has (fun v => ~~ isclose0 v && (v <? 0)%float) lamb ->
  trueLinearity (diag e) = None ->
  linearityTest E e m significance atol
  = (l0 ++ [:: Stdout NegativeEigenvalues], Raise AttributeError).
Proof.
move=> Hc HS Heig Hinv Hneg Ht.
rewrite /linearityTest Hc /= bind_lift HS bind_lift Heig Hinv.
by rewrite {1}/bind has_negative Hneg /print bind_emit bind_lift Ht.
Qed.

Lemma mapM_size {A B} (f : A -> M B) s l r :
  mapM f s = (l, Ok r) -> size r = size s.
Proof.
elim: s l r => [|a s IH] l r /=; first by case=> _ <-.
move=> H; case: (bindP H) => ? [b [? [_ {}H _]]].
case: (bindP H) => ? [bs [? [/IH Hs [_ <-] _]]].
by rewrite /= Hs.
Qed.

(** X18. When [linearityTest] runs through, it returns and stores at most
    [maxErrorPatterns] linearisation errors, and one for each state
    variable if there are fewer or if [maxErrorPatterns] is [None]. *)
Theorem linearityTest_length (E : env) (e : engine) (m : option nat)
    (significance atol : float) l e1 lin chi2 crit :
  linearityTest E e m significance atol = (l, Ok (e1, LinearityFull lin chi2 crit)) ->
  size lin = (if m is Some k then minn k (x_n (cfg e)) else x_n (cfg e))
  /\ linearity (diag e1) = Some lin.
Proof.
rewrite /linearityTest; case: (converged e) => /=; last first.
  by rewrite /print bind_emit bind_lift; case: (trueLinearity _).
move=> H; case: (bindP H) => ? [S [? [_ {}H _]]].
case: (bindP H) => ? [[lamb II] [? [_ {}H _]]].
case: (bindP H) => ? [S_Ep_inv [? [_ {}H _]]].
move: H; case: ifP => _ H.
  case: (bindP H) => ? [_ [? [_ {}H _]]]; move: H; rewrite bind_lift.
  by case: (trueLinearity _).
case: (bindP H) => ? [x_conv [? [_ {}H _]]].
case: (bindP H) => ? [y_conv [? [_ {}H _]]].
case: (bindP H) => ? [K [? [_ {}H _]]].
case: (bindP H) => ? [lin0 [? [/mapM_size Hlin {}H _]]].
case: (bindP H) => ? [r [? [_ {}H _]]].
case: (bindP H) => ? [res [? [_ [_ <- <- _ _] _]]] {H}.
rewrite size_iota in Hlin; split=> //.
case: m => [k|]; last by rewrite size_sort.
by rewrite size_take size_sort Hlin /minn.
Qed.

Lemma mask_all_false {A} (p : pred A) (s : seq A) (t : seq float) :
  all (fun a => ~~ p a) s -> mask [seq p a | a <- s] t = [::].
Proof.
by elim: s t => [|a s IH] [|b t] //= /andP [/negbTE -> Hs]; rewrite IH.
Qed.

(** X19. When no eigenvalue of [S] exceeds [atol] in absolute value (the
    covariance is numerically zero), [_testChi2] returns the statistic 0
    with the critical value for 0 degrees of freedom, and, unless [S] is
    empty, prints the notice that the matrix is singular. *)
Theorem testChi2_all_dropped (E : env) (S : ndarray) (z : vec)
    (significance atol : float) (w : vec) (V : ndarray) :
  scipy_linalg_eig E S = Ok (w, V) ->
  all (fun ev => ~~ (atol <? PrimFloat.abs ev)%float) w ->
  _testChi2 E S z significance atol
  = (if w is [::] then [::] else [:: Stdout (SingularRank 0 (size w))],
     Ok (0%float, chi2_isf E significance 0)).
Proof.
move=> Heig Hall.
have Hcount : count id [seq (atol <? PrimFloat.abs ev)%float | ev <- w] = 0.
  by rewrite count_map; apply/eqP; rewrite -leqn0 leqNgt -has_count -all_predC.
rewrite /_testChi2 /_estimateChi2 bind_lift Heig Hcount size_map.
rewrite !(mask_all_false _ Hall).
by case: w {Heig Hall Hcount} => [|ev w] //=; rewrite /print /bind.
Qed.

(** ** [summarize] and [summary] *)

Section SummarizeFacts.

Variable X : Type.
Variable xr_Dataset : summary_dict -> result X.
Variable pd_concat : ndarray -> ndarray -> ndarray.

Lemma finalize_sol_converged i e :
  sol (finalize i e)
  = if converged e then accepted_solution (cfg e) (truncate (hist e) i) i
    else undefined_solution.
Proof. by []. Qed.

(** X20. After a run that did not converge, [summarize] raises
    [RuntimeError], whatever its arguments. *)
Theorem summarize_not_converged (E : env) (maxIter : nat) (x_0 : option vec)
    (maxTime : float) (e : engine) l e' (returnXarray combineXB : bool) :
  doRetrieval E maxIter x_0 maxTime e = (l, Ok (e', false)) ->
  summarize xr_Dataset pd_concat e' returnXarray combineXB = ([::], Ok RuntimeError).
Proof.
move=> H; have [i [e1 [v [_ He' Hb _ _]]]] := doRetrievalP H.
by rewrite /summarize He' finalize_sol_converged -Hb.
Qed.

Lemma get_set_item d k v k' :
  get_item (set_item d k v) k' = if k == k' then Some v else get_item d k'.
Proof.
elim: d => [|[k0 v0] d IH] /=; first by [].
case: (k0 =P k) => [->|Hne] /=; first by case: ifP.
rewrite IH; case: (k =P k') => [<-|_] //.
by case: (k0 =P k).
Qed.

Lemma summary_resultsP e i x y S xe g gx Sep :
  sol e = Solution (Some (Posz i)) (Val x) (Val y) (Val S) (Val xe) (Val g) (Val gx)
            (Val Sep) ->
  i < size (dgf_i (hist e)) -> nth 0%float (dgf_i (hist e)) i = g ->
  (isSome (trueLinearityChi2 (diag e)) ==> isSome (trueLinearityChi2Critical (diag e))) ->
  exists d,
    [/\ summary_results e = ([::], Ok d),
        [/\ get_item d "x_a" = Some (Series (x_vars (cfg e)) (x_a (cfg e))),
            get_item d "x_op" = Some (Series (x_vars (cfg e)) x),
            get_item d "x_op_err" = Some (Series (x_vars (cfg e)) xe)
          & get_item d "dgf_x" = Some (Series (x_vars (cfg e)) gx)],
        [/\ get_item d "S_a" = Some (Frame (S_a (cfg e))),
            get_item d "S_op" = Some (Frame S)
          & get_item d "y_op" = Some (Series (y_vars (cfg e)) y)]
      & [/\ get_item d "dgf" = Some (Float g),
            get_item d "convergedIteration" = Some (Int (Posz i))
          & get_item d "b_p" = None]].
Proof.
move=> Hsol Hi Hg Hlin.
rewrite /summary_results Hsol /= !bind_lift /= /at_convI Hsol /= Hi Hg.
case Ht: (trueLinearityChi2 (diag e)) Hlin => [t|] /=.
- case Htc: (trueLinearityChi2Critical (diag e)) => [tc|] //= _.
  rewrite bind_lift /= bind_ret bind_lift /= bind_lift /=.
  case: (chi2Results (diag e)) => [res|];
    by eexists; split; [reflexivity | split; rewrite !get_set_item ..].
- move=> _; rewrite bind_ret bind_lift /= bind_lift /=.
  case: (chi2Results (diag e)) => [res|];
    by eexists; split; [reflexivity | split; rewrite !get_set_item ..].
Qed.

(** X21. After a run that converged, [summarize] with
    [returnXarray=False] returns a dict: [convergedIteration] is [convI],
    [dgf] is the attribute [dgf], [y_op] is the attribute [y_op]; and [x_op]
    is the attribute [x_op], followed by the parameters [b_p] when
    [combineXB] is set, in which case there is no entry [b_p].  (The
    attributes of the linearity test, if present, are taken to be the two
    that [linearityTest] sets together.) *)
Theorem summarize_converged (E : env) (maxIter : nat) (x_0 : option vec)
    (maxTime : float) (e : engine) l e' (combineXB : bool) :
  doRetrieval E maxIter x_0 maxTime e = (l, Ok (e', true)) ->
  (isSome (trueLinearityChi2 (diag e)) ==> isSome (trueLinearityChi2Critical (diag e))) ->
  exists d i g x y,
    [/\ summarize xr_Dataset pd_concat e' false combineXB = ([::], Ok (AsDict d)),
        [/\ convI (sol e') = Some (Posz i), dgf (sol e') = Val g,
            x_op (sol e') = Val x & y_op (sol e') = Val y],
        [/\ get_item d "convergedIteration" = Some (Int (Posz i)),
            get_item d "dgf" = Some (Float g)
          & get_item d "y_op" = Some (Series (y_vars (cfg e)) y)],
        get_item d "x_op"
        = Some (if combineXB && (0 < b_n (cfg e))
                then Series (x_vars (cfg e) ++ b_vars (cfg e)) (x ++ b_p (cfg e))
                else Series (x_vars (cfg e)) x)
      & isSome (get_item d "b_p") = ~~ combineXB && (0 < b_n (cfg e))].
Proof.
move=> H Hlin; have [i [e1 [v [Hit He' Hb Hi _]]]] := doRetrievalP H.
have [Hcfg Hdiag] := doRetrieval_frame H.
case: (bindP Hit) => l3 [e0 [l4 [Hprep Hloop _]]].
have [Hmax _ _ _ _] := prepareP Hprep.
have [] := loop_sizes Hloop _ (prepare_sizes Hprep); first by rewrite add0n ltn_predL.
move=> _ _ /(well_sized_truncate Hi) /well_sizedP [[_ _ _ _ Hdgf] _].
have Hsol : sol e' = accepted_solution (cfg e1) (truncate (hist e1) i) i.
  by rewrite He' finalize_sol_converged -Hb.
have Hhist : hist e' = truncate (hist e1) i by rewrite He'.
have [] := @summary_resultsP e' i _ _ _ _ _ _ _ Hsol.
- by rewrite Hhist Hdgf.
- by rewrite Hhist.
- by rewrite Hdiag.
move=> d0 [Hres [Hxa Hxop Hxerr Hdgfx] [HSa HSop Hyop] [Hg Hci Hbp]].
rewrite /summarize Hsol /= Hres bind_ret /summary_parameters -/(b_n (cfg e')) Hcfg.
rewrite ![cfg e']Hcfg in Hxa Hxop Hxerr Hdgfx HSa HSop Hyop.
case: combineXB => /=; case Hb0: (0 < b_n (cfg e)) => /=.
- rewrite /item Hxa bind_lift /= bind_lift /=.
  rewrite !get_set_item /= Hxop bind_lift /= bind_lift /=.
  rewrite !get_set_item /= Hxerr bind_lift /= bind_lift /=.
  rewrite !get_set_item /= Hdgfx bind_lift /= bind_lift /=.
  rewrite !get_set_item /= HSa bind_lift /= bind_lift /=.
  rewrite !get_set_item /= HSop bind_lift /= bind_lift /= bind_ret.
  do 5!eexists; split; [reflexivity | by [] | | |];
    by rewrite ?Hsol !get_set_item /= ?Hg ?Hci ?Hyop ?Hbp.
- rewrite bind_ret; do 5!eexists; split; [reflexivity | by [] | | |];
    by rewrite ?Hsol /= ?Hg ?Hci ?Hyop ?Hbp ?Hxop.
- rewrite bind_ret; do 5!eexists; split; [reflexivity | by [] | | |];
    by rewrite ?Hsol !get_set_item /= ?Hg ?Hci ?Hyop ?Hbp ?Hxop.
- rewrite bind_ret; do 5!eexists; split; [reflexivity | by [] | | |];
    by rewrite ?Hsol /= ?Hg ?Hci ?Hyop ?Hbp ?Hxop.
Qed.

Lemma summarize_xarray e combineXB l d :
  summarize xr_Dataset pd_concat e true combineXB <> (l, Ok (AsDict d)).
Proof.
rewrite /summarize; case: (convI (sol e)) => [[i|i]|] //.
case: (summary_results e) => l1 [d1|x] //; rewrite /bind.
case: (summary_parameters _ _ _ _) => l2 [d2|x] //.
by rewrite /lift; case: (xr_Dataset d2).
Qed.

(** X22. [summary] is not [summarize] under another name: it passes the
    object itself as [returnXarray], so it never returns the dict, whatever
    its arguments; its first positional argument acts as [combineXB]; and
    with two or more positional arguments it fails with [TypeError]. *)
Theorem summary_never_dict (e : engine) (args : seq bool)
    (kw_returnXarray kw_combineXB : option bool) :
  [/\ forall l d, summary xr_Dataset pd_concat e args kw_returnXarray kw_combineXB
                  <> (l, Ok (AsDict d)),
      forall a, summary xr_Dataset pd_concat e [:: a] None None
                = summarize xr_Dataset pd_concat e true a
    & 1 < size args ->
      summary xr_Dataset pd_concat e args kw_returnXarray kw_combineXB
      = ([::], Raise TypeError)].
Proof.
split=> //.
- move=> l d; rewrite /summary.
  case: args => [|a [|b args]]; case: kw_returnXarray => [r|];
    case: kw_combineXB => [c|] //; exact: summarize_xarray.
- by case: args => [|a [|b args]].
Qed.

End SummarizeFacts.

(** ** [_oeDict2Object] *)

Lemma bind_assoc {A B C} (m : M A) (f : A -> M B) (g : B -> M C) :
  bind (bind m f) g = bind m (fun a => bind (f a) g).
Proof.
case: m => l [a|x] //; rewrite /bind; case: (f a) => l1 [b|x] //.
by case: (g b) => l2 r; rewrite catA.
Qed.

(** On the arguments in their places, [initial_tests] is how [__init__]
    begins. *)
Lemma init_initial_tests E c :
  init E c
  = (initial_tests E (Vector (x_a c)) (Matrix (S_a c)) (Matrix (S_y c)) (Vector (y_obs c)) ;;;
     lift (as_series (x_n c) (x_a c)) ;;;
     lift (as_series (y_n c) (y_obs c)) ;;;
     assert (b_n c == size (b_p c)) ;;;
     ret (Engine c false empty_array [::] [::] no_history no_solution no_diagnostics)).
Proof.
rewrite /init /initial_tests.
rewrite bind_assoc; apply: bind_ext => r_a.
rewrite bind_assoc; apply: bind_ext => _.
rewrite bind_assoc; apply: bind_ext => r_y.
rewrite bind_assoc; apply: bind_ext => _.
rewrite bind_assoc; apply: bind_ext => _.
rewrite bind_assoc; apply: bind_ext => _.
by rewrite bind_assoc; apply: bind_ext => _.
Qed.

(** X23. [_oeDict2Object] passes the saved [S_y] and [y_obs] to the
    constructor in each other's places.  The rank of the one-dimensional
    [y_obs] is at most 1, so for an object with two or more measurements
    the constructor's test that [S_y] is not singular fails: the object
    cannot be restored. *)
Theorem oeDict2Object_fails (E : env) (saved : config) (r : nat) :
  np_linalg_matrix_rank E (S_a saved) = Ok r ->
  1 < size (y_obs saved) ->
  oeDict2Object_tests E saved = ([::], Raise AssertionError).
Proof.
move=> Hr Hy; rewrite /oeDict2Object_tests /initial_tests /= Hr bind_lift bind_assert.
case: ifP => // _; rewrite bind_lift bind_assert.
by case: (all _ _); case: (size _) Hy => [|[|n]].
Qed.

(** ** The further properties at the one-dimensional problem *)

Section FurtherCases.

Import OneD Cases.

Lemma getJacobian_shapes_witness :
  exists l J,
    [/\ getJacobian (environment mild) problem [:: 1%float] [:: mild 1%float] = (l, Ok J),
        l = [::], nrows (jacobian_x J) = 1 & ncols (jacobian_b J) = 0].
Proof.
have [l [J HJ]] : exists l J,
    getJacobian (environment mild) problem [:: 1%float] [:: mild 1%float] = (l, Ok J).
  eexists; eexists; vm_compute; reflexivity.
have [Hl [Hx _ _] [_ Hb _] _ _] :=
  @getJacobian_shapes (environment mild) problem [:: 1%float] [:: mild 1%float] l J
    isT isT erefl HJ.
exists l, J; split; [exact: HJ | exact: Hl | exact: Hx | exact: Hb].
Defined.

Lemma getJacobian_unit_factor_witness :
  exists l J,
    getJacobian (environment mild) unit_factor [:: 1%float] [:: mild 1%float] = (l, Ok J)
    /\ jacobian_entry unit_factor J 0 0 = 0%float.
Proof.
have [l [J HJ]] : exists l J,
    getJacobian (environment mild) unit_factor [:: 1%float] [:: mild 1%float] = (l, Ok J).
  eexists; eexists; vm_compute; reflexivity.
exists l, J; split; first exact: HJ.
exact: (@getJacobian_unit_factor (environment mild) unit_factor [:: 1%float]
          [:: mild 1%float] l J [:: ("x", 1%float)] 0 0 isT isT erefl isT HJ erefl erefl
          isT isT).
Defined.

Lemma getJacobian_disturbance_witness :
  getJacobian (environment mild) no_disturbance [:: 1%float] [:: mild 1%float]
  = ([::], Raise KeyError).
Proof.
have [_ H] := @getJacobian_disturbance (environment mild) no_disturbance [:: 1%float]
                [:: mild 1%float] erefl isT.
exact: (H [::] erefl isT (environment mild)).
Defined.

Lemma check_valid_within_limits_witness :
  exists l x',
    check_valid bounded 3 [:: (-1)%float] = (l, Ok x') /\ ~~ violates bounded x' 0.
Proof.
have [l [x' H]] : exists l x', check_valid bounded 3 [:: (-1)%float] = (l, Ok x').
  eexists; eexists; vm_compute; reflexivity.
have Hprior : forall jj, jj < x_n bounded -> ~~ violates bounded (x_a bounded) jj.
  by case.
exists l, x'; split; first exact: H.
exact: (@check_valid_within_limits bounded 3 [:: (-1)%float] l x' erefl Hprior H 0 isT).
Defined.

Lemma check_valid_idempotent_witness :
  exists l x' l',
    check_valid bounded 3 [:: (-1)%float] = (l, Ok x')
    /\ check_valid bounded 4 x' = (l', Ok x').
Proof.
have [l [x' H]] : exists l x', check_valid bounded 3 [:: (-1)%float] = (l, Ok x').
  eexists; eexists; vm_compute; reflexivity.
have [l' H'] := @check_valid_idempotent bounded 3 4 [:: (-1)%float] l x' erefl H.
exists l, x', l'; split; [exact: H | exact: H'].
Defined.

Lemma doRetrieval_sizes_witness :
  exists l e' b n,
    doRetrieval (environment mild) 5 None maxTime (fresh problem) = (l, Ok (e', b))
    /\ [/\ 0 < n, n <= 5 & well_sized n (hist e')].
Proof.
have [l [e' [b H]]] : exists l e' b,
    doRetrieval (environment mild) 5 None maxTime (fresh problem) = (l, Ok (e', b)).
  eexists; eexists; eexists; vm_compute; reflexivity.
have [n Hn] := doRetrieval_sizes H.
exists l, e', b, n; split; [exact: H | exact: Hn].
Defined.

Lemma doRetrieval_converged_index_witness :
  exists l e' i,
    doRetrieval (environment mild) 5 None maxTime (fresh problem) = (l, Ok (e', true))
    /\ convI (sol e') = Some (Posz i) /\ 0 < i < 5.
Proof.
have [l [e' H]] : exists l e',
    doRetrieval (environment mild) 5 None maxTime (fresh problem) = (l, Ok (e', true)).
  eexists; eexists; vm_compute; reflexivity.
have [i [Hi Hb _ _]] := doRetrieval_converged_index H.
exists l, e', i; split; [exact: H | split; [exact: Hi | exact: Hb]].
Defined.

Lemma doRetrieval_again_witness :
  exists l e' b,
    doRetrieval (environment mild) 5 None maxTime (fresh problem) = (l, Ok (e', b))
    /\ doRetrieval (environment mild) 5 None maxTime e' = (l, Ok (e', b)).
Proof.
have [l [e' [b H]]] : exists l e' b,
    doRetrieval (environment mild) 5 None maxTime (fresh problem) = (l, Ok (e', b)).
  eexists; eexists; eexists; vm_compute; reflexivity.
exists l, e', b; split; [exact: H | exact: (doRetrieval_again H)].
Defined.

Lemma doRetrieval_time_exceeded_witness :
  exists l e' b,
    doRetrieval (environment mild) 5 None (-1)%float (fresh problem) = (l, Ok (e', b))
    /\ b = false /\ well_sized 1 (hist e').
Proof.
have [l [e' [b H]]] : exists l e' b,
    doRetrieval (environment mild) 5 None (-1)%float (fresh problem) = (l, Ok (e', b)).
  eexists; eexists; eexists; vm_compute; reflexivity.
have [Hb Hws _] := @doRetrieval_time_exceeded (environment mild) 5 None (-1)%float
                     (fresh problem) l e' b isT H.
exists l, e', b; split; [exact: H | split; [exact: Hb | exact: Hws]].
Defined.

Lemma doRetrieval_start_witness :
  exists l e' b,
    doRetrieval (environment mild) 5 (Some [:: 0.5%float]) maxTime (fresh damped)
      = (l, Ok (e', b))
    /\ nth [::] (x_i (hist e')) 0 = [:: 0.5%float]
    /\ forall k, k < size (gam_i (hist e')) ->
         nth 1%float (gam_i (hist e')) k = nth 1%float [:: 4%float; 2%float; 1%float] k.
Proof.
have [l [e' [b H]]] : exists l e' b,
    doRetrieval (environment mild) 5 (Some [:: 0.5%float]) maxTime (fresh damped)
      = (l, Ok (e', b)).
  eexists; eexists; eexists; vm_compute; reflexivity.
have [Hx _ Hg] := doRetrieval_start H.
exists l, e', b; split; [exact: H | split; [exact: Hx | exact: Hg]].
Defined.

Lemma doRetrieval_asserts_witness :
  doRetrieval (environment mild) 2 None maxTime (fresh damped)
  = ([::], Raise AssertionError).
Proof.
have [_ H] := doRetrieval_asserts (environment mild) None maxTime (fresh damped).
have [Sa Hinv] : exists Sa,
    invertMatrix (environment mild) (S_a (cfg (fresh damped))) true = ([::], Ok Sa).
  eexists; vm_compute; reflexivity.
exact: (H 2 [:: 4%float; 2%float; 1%float] [::] Sa erefl isT Hinv).
Defined.

Example doRetrieval_asserts_gammaFactor :
  doRetrieval (environment mild) 2 None maxTime (fresh damped)
  = ([::], Raise AssertionError).
Proof. vm_compute; reflexivity. Qed.

Lemma y_a_cached_witness :
  exists l e1 y,
    y_a (environment mild) (fresh problem) = (l, Ok (e1, y))
    /\ y_a (environment identity) e1 = ([::], Ok (e1, y)).
Proof.
have [l [e1 [y H]]] : exists l e1 y,
    y_a (environment mild) (fresh problem) = (l, Ok (e1, y)).
  eexists; eexists; eexists; vm_compute; reflexivity.
have [_ _ _ Hidem] := y_a_cached H.
exists l, e1, y; split; [exact: H | exact: (Hidem (environment identity))].
Defined.

Lemma converged_object_run :
  doRetrieval (environment mild) 5 None maxTime (fresh problem)
  = ([:: Stdout (IterationFulfilled 1); Stdout (IterationDone 2)],
     Ok (converged_object, true)).
Proof. vm_compute; reflexivity. Qed.

Lemma tested_run :
  chiSquareTest (environment mild) converged_object 0.05%float
  = ([::], Ok (tested.1, tested.2)).
Proof. vm_compute; reflexivity. Qed.

Lemma linearised_run :
  linearityTest (environment mild) converged_object (Some 10) 0.05%float 1e-5%float
  = ([::], Ok (linearised.1, linearised.2)).
Proof. vm_compute; reflexivity. Qed.

Lemma doRetrieval_confirmation_pass_witness :
  [/\ 1 < 2, satisfied (cfg converged_object) (hist converged_object) 1,
      ~~ satisfied (cfg converged_object) (hist converged_object) 0
    & x_op (sol converged_object) = Val (nth [::] (x_i (hist converged_object)) 2)].
Proof.
have Hi : convI (sol converged_object) = Some (Posz 2) by vm_compute; reflexivity.
have [H1 [Hs Hnot] [Hx _] _] :=
  doRetrieval_confirmation_pass converged_object_run Hi isT.
by split=> //; apply: Hnot.
Defined.

Lemma chiSquareTest_stale_witness :
  exists l2 e2,
    doRetrieval (environment identity) 1 None maxTime tested.1 = (l2, Ok (e2, false))
    /\ chiSquareTest (environment identity) e2 0.01%float
       = ([:: Stdout DidNotConverge], Ok (e2, tested.2)).
Proof.
have [l2 [e2 H2]] : exists l2 e2,
    doRetrieval (environment identity) 1 None maxTime tested.1 = (l2, Ok (e2, false)).
  eexists; eexists; vm_compute; reflexivity.
exists l2, e2; split; first exact: H2.
exact: (chiSquareTest_stale (environment identity) 0.01%float tested_run H2).
Defined.

Lemma linearityTest_stale_witness :
  exists l2 e2 t e3,
    doRetrieval (environment identity) 1 None maxTime linearised.1 = (l2, Ok (e2, false))
    /\ linearityTest (environment identity) e2 None 0.05%float 1e-5%float
       = ([:: Stdout DidNotConverge],
          Ok (e3, LinearityEarly [:: (0 * PrimFloat.nan)%float] t)).
Proof.
have [l2 [e2 H2]] : exists l2 e2,
    doRetrieval (environment identity) 1 None maxTime linearised.1 = (l2, Ok (e2, false)).
  eexists; eexists; vm_compute; reflexivity.
have [t [e3 [_ H3 _ _]]] :=
  linearityTest_stale (environment identity) None 0.05%float 1e-5%float linearised_run H2.
exists l2, e2, t, e3; split; [exact: H2 | exact: H3].
Defined.

Lemma chiSquareTest_converged_witness :
  exists r1 r2 r3 r4 : float * float,
    tested.2.1.2 = [:: r1.1; r2.1; r3.1; r4.1]
    /\ chi2Results (diag tested.1) = Some [:: r1; r2; r3; r4].
Proof.
have Hrun : chiSquareTest (environment mild) converged_object 0.05%float
            = ([::], Ok (tested.1, (tested.2.1.1, tested.2.1.2, tested.2.2))).
  vm_compute; reflexivity.
have Hc : converged converged_object by vm_compute; reflexivity.
have [r1 [r2 [r3 [r4 [ea [_ _ _ _ [Hv _ _ Hres]]]]]]] := chiSquareTest_converged Hc Hrun.
exists r1, r2, r3, r4; split; [exact: Hv | exact: Hres].
Defined.

Lemma linearityTest_negative_eigenvalue_witness :
  linearityTest (environment mild) negative_posterior (Some 10) 0.05%float 1e-5%float
  = ([:: Stdout NegativeEigenvalues], Raise AttributeError).
Proof.
exact: (@linearityTest_negative_eigenvalue (environment mild) negative_posterior
          (Some 10) 0.05%float 1e-5%float (array (-1)) [:: (-1)%float] (array 1) [::]
          (array 100) isT erefl erefl erefl isT erefl).
Defined.

Lemma linearityTest_length_witness :
  exists lin chi2 crit,
    linearised.2 = LinearityFull lin chi2 crit /\ size lin = 1.
Proof.
have [lin [chi2 [crit Hout]]] : exists lin chi2 crit,
    linearised.2 = LinearityFull lin chi2 crit.
  eexists; eexists; eexists; vm_compute; reflexivity.
have Hrun := linearised_run; rewrite Hout in Hrun.
have [Hs _] := linearityTest_length Hrun.
exists lin, chi2, crit; split; [exact: Hout | exact: Hs].
Defined.

Lemma testChi2_all_dropped_witness :
  _testChi2 (environment mild) (array 0) [:: 4%float] 0.05%float 1e-5%float
  = ([:: Stdout (SingularRank 0 1)], Ok (0%float, PrimFloat.nan)).
Proof.
exact: (@testChi2_all_dropped (environment mild) (array 0) [:: 4%float] 0.05%float
          1e-5%float [:: 0%float] (array 1) erefl isT).
Defined.

Lemma summarize_not_converged_witness :
  exists l e',
    doRetrieval (environment identity) 2 None maxTime (fresh problem) = (l, Ok (e', false))
    /\ summarize dataset stack e' true false = ([::], Ok RuntimeError).
Proof.
have [l [e' H]] : exists l e',
    doRetrieval (environment identity) 2 None maxTime (fresh problem)
      = (l, Ok (e', false)).
  eexists; eexists; vm_compute; reflexivity.
exists l, e'; split; first exact: H.
exact: (summarize_not_converged dataset stack true false H).
Defined.

Lemma summarize_converged_witness :
  exists d,
    summarize dataset stack converged_object false true = ([::], Ok (AsDict d))
    /\ get_item d "convergedIteration" = Some (Int (Posz 2)).
Proof.
have [d [i [g [x [y [Hs [Hi _ _ _] [Hci _ _] _ _]]]]]] :=
  @summarize_converged _ dataset stack _ _ _ _ _ _ _ true converged_object_run isT.
exists d; split; first exact: Hs.
have Hi2 : convI (sol converged_object) = Some (Posz 2) by vm_compute; reflexivity.
move: Hi Hci; rewrite Hi2 => -[<-] Hci; exact: Hci.
Defined.

Lemma summary_never_dict_witness :
  summary dataset stack converged_object [:: true; false] None None
  = ([::], Raise TypeError).
Proof.
have [_ _ H] := @summary_never_dict _ dataset stack converged_object
                  [:: true; false] None None.
exact: H.
Defined.

Example summary_returns_dataset :
  summary dataset stack converged_object [::] None None
  = ([::], Ok (AsDataset [:: "x_a"; "x_a_err"; "S_a"; "x_op"; "x_op_err"; "S_op";
                            "dgf_x"; "y_obs"; "S_y"; "y_op"; "x_truth"; "dgf";
                            "convergedIteration"])).
Proof. vm_compute; reflexivity. Qed.

Lemma oeDict2Object_fails_witness :
  oeDict2Object_tests (environment mild) two_measurements = ([::], Raise AssertionError).
Proof.
exact: (@oeDict2Object_fails (environment mild) two_measurements 1 erefl isT).
Defined.

End FurtherCases.

(** ** float64 arithmetic on zeros and on values of one sign *)

Lemma shr_1_nonneg mrs : nonneg_Z (shr_m mrs) -> nonneg_Z (shr_m (shr_1 mrs)).
Proof. by case: mrs => [[|[p|p|]|p] r s]. Qed.

Lemma iter_pos_nonneg p mrs :
  nonneg_Z (shr_m mrs) -> nonneg_Z (shr_m (SpecFloat.iter_pos shr_1 p mrs)).
Proof.
elim: p mrs => [p IH|p IH|] mrs H /=.
- by apply: (IH); apply: (IH); apply: shr_1_nonneg.
- by apply: (IH); apply: (IH).
- exact: shr_1_nonneg.
Qed.

Lemma shr_fexp_nonneg prec emax m e l :
  nonneg_Z m -> nonneg_Z (shr_m (shr_fexp prec emax m e l).1).
Proof.
move=> Hm; rewrite /shr_fexp /shr.
have H0 : nonneg_Z (shr_m (shr_record_of_loc m l)) by case: l => [|[]].
by case: (Z.sub _ _) => [|p|p] //=; apply: iter_pos_nonneg.
Qed.

Lemma round_nearest_even_nonneg m l : nonneg_Z m -> nonneg_Z (round_nearest_even m l).
Proof.
case: m => [|p|p] // _; case: l => [|[]] //=.
by case: p.
Qed.

Lemma binary_round_aux_sign prec emax s m e l :
  nonneg_Z m -> sign_clear (binary_round_aux prec emax s m e l) = ~~ s.
Proof.
move=> Hm; rewrite /binary_round_aux.
case H1: (shr_fexp prec emax m e l) => [mrs1 e1].
have Hn1 : nonneg_Z (shr_m mrs1) by move: (shr_fexp_nonneg prec emax e l Hm); rewrite H1.
case H2: (shr_fexp _ _ _ _ _) => [mrs2 e2].
have : nonneg_Z (shr_m mrs2).
  have := shr_fexp_nonneg prec emax e1 loc_Exact
            (round_nearest_even_nonneg (loc_of_shr_record mrs1) Hn1).
  by rewrite H2.
by case: (shr_m mrs2) => [|p|p] //= _; case: (Z.leb _ _).
Qed.

Lemma SF_zero : Prim2SF 0 = S754_zero false.
Proof. by vm_compute. Qed.

Lemma SF_infinity : Prim2SF PrimFloat.infinity = S754_infinity false.
Proof. by vm_compute. Qed.

Lemma SFcompare_refl x : x <> S754_nan -> SFcompare x x = Some Eq.
Proof.
case: x => [s|s| |s m e] //= _; try by case: s.
by case: s; rewrite Z.compare_refl Pos.compare_cont_refl.
Qed.

Lemma is_nanE v : PrimFloat.is_nan v = (if Prim2SF v is S754_nan then true else false).
Proof.
rewrite /PrimFloat.is_nan FloatAxioms.eqb_spec /SFeqb.
case H: (Prim2SF v) => [s|s| |s m e] //; rewrite SFcompare_refl //.
Qed.

Lemma is_zeroE v : is_zero v = (v =? 0)%float.
Proof.
rewrite /is_zero FloatAxioms.eqb_spec SF_zero /SFeqb.
by case: (Prim2SF v) => [s|s| |s m e] //=; case: s.
Qed.

Lemma finiteP v :
  finite v ->
  (exists s, Prim2SF v = S754_zero s) \/ (exists s m e, Prim2SF v = S754_finite s m e).
Proof.
rewrite /finite is_nanE /PrimFloat.is_infinity FloatAxioms.eqb_spec FloatAxioms.abs_spec.
rewrite SF_infinity /SFeqb.
case: (Prim2SF v) => [s|s| |s m e] //= _; first by left; exists s.
by right; exists s, m, e.
Qed.

Lemma positive_finiteP v :
  positive_finite v -> exists m e, Prim2SF v = S754_finite false m e.
Proof.
rewrite /positive_finite !FloatAxioms.ltb_spec SF_zero SF_infinity /SFltb.
case: (Prim2SF v) => [s|s| |s m e] //=; try by case: s.
by case: s => // _; exists m, e.
Qed.

Lemma SFdiv_core_nonneg prec emax m1 e1 m2 e2 :
  nonneg_Z (SFdiv_core_binary prec emax (Zpos m1) e1 (Zpos m2) e2).1.1.
Proof.
rewrite /SFdiv_core_binary.
set m' := match _ with Z0 => _ | Zpos _ => _ | Zneg _ => _ end.
have Hm' : Z.le Z0 m'.
  rewrite /m'; case: (Z.sub _ _) => [|p|p] //.
  by apply/Z.shiftl_nonneg.
have := Z.div_pos m' (Zpos m2) Hm' (Pos2Z.is_pos m2).
rewrite /Z.div; case: (Z.div_eucl m' (Zpos m2)) => [q r] /=.
by case: q => [|q|q] // H; case: H.
Qed.

Lemma nonnegative0 : nonnegative 0.
Proof. by vm_compute. Qed.

Lemma nonnegative_mul_self z : ~~ PrimFloat.is_nan z -> nonnegative (z * z).
Proof.
rewrite is_nanE /nonnegative FloatAxioms.mul_spec.
case: (Prim2SF z) => [s|s| |s m e] //= _; try by case: s.
by rewrite /SF64mul /= binary_round_aux_sign //; case: s.
Qed.

Lemma nonnegative_div a b : nonnegative a -> positive_finite b -> nonnegative (a / b).
Proof.
rewrite /nonnegative FloatAxioms.div_spec => Ha /positive_finiteP [m [e ->]].
case: (Prim2SF a) Ha => [s|s| |s ma ea] //=; try by case: s.
case: s => // _; rewrite /SF64div /=.
have := SFdiv_core_nonneg prec emax ma ea m e.
case: (SFdiv_core_binary _ _ _ _ _ _) => [[mz ez] lz] /= Hmz.
by rewrite binary_round_aux_sign.
Qed.

Lemma nonnegative_add a b : nonnegative a -> nonnegative b -> nonnegative (a + b).
Proof.
rewrite /nonnegative FloatAxioms.add_spec.
case: (Prim2SF a) => [sa|sa| |sa ma ea] //=; case: sa => //= _;
  case: (Prim2SF b) => [sb|sb| |sb mb eb] //=; case: sb => //= _.
rewrite /SF64add /= /binary_round.
case: (shl_align _ _ _) => [mz ez].
by rewrite binary_round_aux_sign.
Qed.

Lemma nonnegative_sum (s : vec) : all nonnegative s -> nonnegative (np_sum s).
Proof.
rewrite /np_sum; move: nonnegative0; move: 0%float.
elim: s => [|x s IH] acc Hacc //= /andP [Hx Hs].
by apply: IH => //; apply: nonnegative_add.
Qed.

Lemma nonnegative_ge0 v : nonnegative v -> (0 <=? v)%float.
Proof.
rewrite /nonnegative FloatAxioms.leb_spec SF_zero /SFleb.
by case: (Prim2SF v) => [s|s| |s m e] //=; case: s.
Qed.

Lemma is_zero0 : is_zero 0.
Proof. by vm_compute. Qed.

Lemma sub_self v : finite v -> is_zero (v - v).
Proof.
rewrite /is_zero FloatAxioms.sub_spec.
case/finiteP => [[s ->]|[s [m [e ->]]]] /=; first by case: s.
by rewrite /SF64sub /= Z.sub_diag.
Qed.

Lemma mul_is_zero x z : finite x -> is_zero z -> is_zero (x * z).
Proof.
rewrite /is_zero FloatAxioms.mul_spec.
case/finiteP => [[s ->]|[s [m [e ->]]]] /=; by case: (Prim2SF z).
Qed.

Lemma add_is_zero a b : is_zero a -> is_zero b -> is_zero (a + b).
Proof.
rewrite /is_zero FloatAxioms.add_spec.
case: (Prim2SF a) => [sa|sa| |sa ma ea] //= _.
by case: (Prim2SF b) => [sb|sb| |sb mb eb] //= _; case: sa; case: sb.
Qed.

Lemma sum_is_zero (s : vec) : all is_zero s -> is_zero (np_sum s).
Proof.
rewrite /np_sum; move: is_zero0; move: 0%float.
elim: s => [|x s IH] acc Hacc //= /andP [Hx Hs].
by apply: IH => //; apply: add_is_zero.
Qed.

(** An eigenvalue that passes [|ev| > atol] for an [atol] that is not
    negative is neither NaN nor zero. *)
Lemma kept_nonzero atol ev :
  ~~ (atol <? 0)%float -> (atol <? PrimFloat.abs ev)%float ->
  match Prim2SF ev with
  | S754_finite _ _ _ | S754_infinity _ => true
  | _ => false
  end.
Proof.
rewrite !FloatAxioms.ltb_spec FloatAxioms.abs_spec SF_zero.
case: (Prim2SF ev) => [s|s| |s m e] //=.
- by move/negbTE => ->.
- by rewrite /SFltb; case: (Prim2SF atol).
Qed.

Lemma term_is_zero atol z ev :
  ~~ (atol <? 0)%float -> (atol <? PrimFloat.abs ev)%float ->
  is_zero z -> is_zero (z * z / ev).
Proof.
move=> Ha Hev Hz; have := kept_nonzero Ha Hev.
move: Hz; rewrite /is_zero FloatAxioms.div_spec FloatAxioms.mul_spec.
case: (Prim2SF z) => [s|s| |s m e] //= _.
by case: (Prim2SF ev).
Qed.

(** ** The sign of the chi-square statistic *)

Lemma zipWith_mask_any {A B C} (f : A -> B -> C) (a : pred B) (s : seq A) (t : seq B) :
  zipWith f (mask [seq a y | y <- t] s) (mask [seq a y | y <- t] t)
  = [seq f p.1 p.2 | p <- zip s t & a p.2].
Proof.
rewrite /zipWith; elim: s t => [|x s IH] [|y t] //=.
- by case: (a y) => //=; case: (mask _ _).
- by case: (a y); rewrite /= IH.
Qed.

Lemma all_zip1 {A B} (P : pred A) (s : seq A) (t : seq B) :
  all P s -> all (fun p => P p.1) (zip s t).
Proof. by elim: s t => [|x s IH] [|y t] //= /andP [-> /IH ->]. Qed.

Lemma all_zip2 {A B} (P : pred B) (s : seq A) (t : seq B) :
  all P t -> all (fun p => P p.2) (zip s t).
Proof. by elim: s t => [|x s IH] [|y t] //= /andP [-> /IH ->]. Qed.

Lemma finite0 : finite 0.
Proof. by vm_compute. Qed.

Lemma vsub_self (y : vec) : all finite y -> all is_zero (vsub y y).
Proof.
rewrite /vsub /zipWith; elim: y => [|v y IH] //= /andP [Hv Hy].
by rewrite sub_self // IH.
Qed.

Lemma vdot_is_zero (r z : vec) : all finite r -> all is_zero z -> is_zero (vdot r z).
Proof.
move=> Hr Hz; apply: sum_is_zero; rewrite /zipWith all_map.
elim: r z Hr Hz => [|x r IH] [|v z] //= /andP [Hx Hr] /andP [Hv Hz].
by rewrite mul_is_zero //=; apply: IH.
Qed.

Lemma column_finite j (V : ndarray) : all (all finite) (rows V) -> all finite (column j V).
Proof.
rewrite /column all_map => HV; apply/sub_all: HV => r Hr /=.
by apply: nth_all0 => //; exact: finite0.
Qed.

Lemma projection_is_zero (V : ndarray) (z : vec) :
  all (all finite) (rows V) -> all is_zero z ->
  all is_zero (matvec (transpose V) z).
Proof.
move=> HV Hz; rewrite /matvec /= all_map all_map.
apply/allP => j _ /=; apply: vdot_is_zero => //; exact: column_finite.
Qed.

(** What [_testChi2] returns: the sum of the terms of the kept pairs. *)
Lemma testChi2P E S z significance atol l chi2 crit :
  _testChi2 E S z significance atol = (l, Ok (chi2, crit)) ->
  exists w V,
    scipy_linalg_eig E S = Ok (w, V)
    /\ chi2 = np_sum [seq (p.1 * p.1 / p.2)%float
                     | p <- retained atol (matvec (transpose V) z) w].
Proof.
rewrite /_testChi2 => H.
case: (bindP H) => l1 [[chi2s dof] [l2 [Hest [_ <- _] _]]].
move: Hest; rewrite /_estimateChi2 bind_lift.
case Heig: (scipy_linalg_eig E S) => [[w V]|x] // Hest.
case: (bindP Hest) => ? [[] [? [_ [_ <- _] _]]].
by exists w, V; split=> //; rewrite zipWith_mask_any.
Qed.

(** The statistic is 0 for a residual of zeros, and it is not negative
    when every kept eigenvalue is a positive number and no projected
    component is NaN. *)
Lemma testChi2_sign E S z significance atol l chi2 crit w V :
  _testChi2 E S z significance atol = (l, Ok (chi2, crit)) ->
  scipy_linalg_eig E S = Ok (w, V) ->
  (all is_zero z -> all (all finite) (rows V) -> ~~ (atol <? 0)%float ->
   (chi2 =? 0)%float)
  /\ (all (fun p => ~~ PrimFloat.is_nan p.1 && positive_finite p.2)
          (retained atol (matvec (transpose V) z) w) ->
      (0 <=? chi2)%float).
Proof.
move=> /testChi2P [w' [V' [Heig ->]]]; rewrite Heig => -[Hw HV']; rewrite {}Hw {}HV' {Heig}.
split.
- move=> Hz HV Hatol; rewrite -is_zeroE; apply: sum_is_zero.
  rewrite all_map /retained all_filter.
  have := all_zip1 w (projection_is_zero HV Hz).
  apply: sub_all => p Hp /=; apply/implyP => Hev.
  exact: term_is_zero Hatol Hev Hp.
- move=> Hkept; apply: nonnegative_ge0; apply: nonnegative_sum.
  rewrite all_map; apply/sub_all: Hkept => p /andP [Hp1 Hp2] /=.
  by apply: nonnegative_div => //; apply: nonnegative_mul_self.
Qed.



Lemma YObservationPrior_test E e significance atol l e1 r :
  chiSquareTestYObservationPrior E e significance atol = (l, Ok (e1, r)) ->
  exists ya Sep K l2,
    [/\ y_a E e = ([::], Ok (e1, ya)),
        S_Ep (sol e) = Val Sep /\ at_convI empty_array (K_i (hist e)) e = Ok K
      & _testChi2 E (madd (dot (dot K (S_a (cfg e))) (transpose K)) Sep)
          (vsub (y_obs (cfg e)) ya) significance atol = (l2, Ok r)].
Proof.
rewrite /chiSquareTestYObservationPrior bind_assert; case: (converged e) => // H.
case: (bindP H) => l1 [[e2 ya] [l2 [Hya {}H _]]].
have [Hl1 _ _ _] := y_aP Hya.
move: H; rewrite bind_lift /S_Ep_values.
case HSep: (S_Ep (sol e)) => [| |Sep] //; rewrite bind_lift.
case HK: (at_convI _ _ _) => [K|x] // H.
case: (bindP H) => l3 [res [? [Htest [_ He1 Hres] _]]].
by exists ya, Sep, K, l3; rewrite Hya Hl1 -He1 -Hres.
Qed.

(** X24. When [chiSquareTestYObservationPrior] returns: the statistic is 0
    when [y_obs] equals the measurement [y_a] of the prior, its values are
    finite, the left eigenvectors that [scipy.linalg.eig] returned for
    [K S_a K^T + S_Ep] are finite and [atol] is not negative; and it is at
    least 0 when every kept eigenvalue is a positive number and no
    projected component of a kept pair is NaN. *)
Theorem chiSquareTestYObservationPrior_sign (E : env) (e : engine)
    (significance atol : float) l e1 chi2 crit :
  chiSquareTestYObservationPrior E e significance atol = (l, Ok (e1, (chi2, crit))) ->
  exists ya Sep K w V,
    [/\ [/\ y_a E e = ([::], Ok (e1, ya)), S_Ep (sol e) = Val Sep
          & at_convI empty_array (K_i (hist e)) e = Ok K],
        scipy_linalg_eig E (madd (dot (dot K (S_a (cfg e))) (transpose K)) Sep)
          = Ok (w, V),
        y_obs (cfg e) = ya -> all finite ya -> all (all finite) (rows V) ->
          ~~ (atol <? 0)%float -> (chi2 =? 0)%float
      & all (fun p => ~~ PrimFloat.is_nan p.1 && positive_finite p.2)
            (retained atol (matvec (transpose V) (vsub (y_obs (cfg e)) ya)) w) ->
        (0 <=? chi2)%float].
Proof.
move=> /YObservationPrior_test [ya [Sep [K [l2 [Hya [HSep HK] Htest]]]]].
have [w [V [Heig _]]] := testChi2P Htest.
have [Hzero Hpos] := testChi2_sign Htest Heig.
exists ya, Sep, K, w, V; split=> //.
move=> Hyy Hfin HV Hatol; apply: Hzero => //.
by rewrite Hyy; apply: vsub_self.
Qed.

Lemma YOptimalPrior_test E e significance atol l e1 r :
  chiSquareTestYOptimalPrior E e significance atol = (l, Ok (e1, r)) ->
  exists y ya Sep K l1 inv l2,
    [/\ at_convI [::] (y_i (hist e)) e = Ok y /\ y_a E e = ([::], Ok (e1, ya)),
        S_Ep (sol e) = Val Sep /\ at_convI empty_array (K_i (hist e)) e = Ok K,
        invertMatrix E (madd (dot (dot K (S_a (cfg e))) (transpose K)) Sep) true
          = (l1, Ok inv)
      & let KSaK := dot (dot K (S_a (cfg e))) (transpose K) in
        _testChi2 E (dot (dot KSaK inv) KSaK) (vsub y ya) significance atol
          = (l2, Ok r)].
Proof.
rewrite /chiSquareTestYOptimalPrior bind_assert; case: (converged e) => //.
rewrite bind_lift; case Hy: (at_convI _ _ _) => [y|x] // H.
case: (bindP H) => l1 [[e2 ya] [l2 [Hya {}H _]]].
have [Hl1 _ _ _] := y_aP Hya.
move: H; rewrite bind_lift /S_Ep_values.
case HSep: (S_Ep (sol e)) => [| |Sep] //; rewrite bind_lift.
case HK: (at_convI _ _ _) => [K|x] // H.
case: (bindP H) => l3 [inv [l4 [Hinv {}H _]]].
case: (bindP H) => l5 [res [? [Htest [_ He1 Hres] _]]].
by exists y, ya, Sep, K, l3, inv, l5; rewrite Hya Hl1 -He1 -Hres.
Qed.

(** X25. When [chiSquareTestYOptimalPrior] returns: the statistic is 0
    when [y_i[convI]] equals the measurement [y_a] of the prior, its
    values are finite, the left eigenvectors that [scipy.linalg.eig]
    returned for the tested covariance are finite and [atol] is not
    negative; and it is at least 0 when every kept eigenvalue is a
    positive number and no projected component of a kept pair is NaN. *)
Theorem chiSquareTestYOptimalPrior_sign (E : env) (e : engine)
    (significance atol : float) l e1 chi2 crit :
  chiSquareTestYOptimalPrior E e significance atol = (l, Ok (e1, (chi2, crit))) ->
  exists y ya Sep K l1 inv w V,
    [/\ [/\ at_convI [::] (y_i (hist e)) e = Ok y, y_a E e = ([::], Ok (e1, ya)),
            S_Ep (sol e) = Val Sep & at_convI empty_array (K_i (hist e)) e = Ok K],
        invertMatrix E (madd (dot (dot K (S_a (cfg e))) (transpose K)) Sep) true
          = (l1, Ok inv),
        let KSaK := dot (dot K (S_a (cfg e))) (transpose K) in
        scipy_linalg_eig E (dot (dot KSaK inv) KSaK) = Ok (w, V),
        y = ya -> all finite y -> all (all finite) (rows V) ->
          ~~ (atol <? 0)%float -> (chi2 =? 0)%float
      & all (fun p => ~~ PrimFloat.is_nan p.1 && positive_finite p.2)
            (retained atol (matvec (transpose V) (vsub y ya)) w) ->
        (0 <=? chi2)%float].
Proof.
move=> /YOptimalPrior_test [y [ya [Sep [K [l1 [inv [l2 [[Hy Hya] [HSep HK] Hinv Htest]]]]]]]].
have [w [V [Heig _]]] := testChi2P Htest.
have [Hzero Hpos] := testChi2_sign Htest Heig.
exists y, ya, Sep, K, l1, inv, w, V; split=> //.
move=> Hyy Hfin HV Hatol; apply: Hzero => //.
by rewrite -Hyy; apply: vsub_self.
Qed.

Lemma XOptimalPrior_test E e significance atol l r :
  chiSquareTestXOptimalPrior E e significance atol = (l, Ok r) ->
  exists delta_x Sep K l1 inv l2,
    [/\ x_op_minus_x_a e = Ok delta_x,
        S_Ep (sol e) = Val Sep /\ at_convI empty_array (K_i (hist e)) e = Ok K,
        invertMatrix E (madd (dot (dot K (S_a (cfg e))) (transpose K)) Sep) true
          = (l1, Ok inv)
      & _testChi2 E (dot (dot (dot (dot (S_a (cfg e)) (transpose K)) inv) K) (S_a (cfg e)))
          delta_x significance atol = (l2, Ok r)].
Proof.
rewrite /chiSquareTestXOptimalPrior bind_assert; case: (converged e) => //.
rewrite bind_lift; case Hd: (x_op_minus_x_a e) => [delta_x|x] //.
rewrite bind_lift; case HK: (at_convI _ _ _) => [K|x] //.
rewrite bind_lift /S_Ep_values.
case HSep: (S_Ep (sol e)) => [| |Sep] // H.
case: (bindP H) => l1 [inv [l2 [Hinv Htest _]]].
by exists delta_x, Sep, K, l1, inv, l2.
Qed.

(** X26. When [chiSquareTestXOptimalPrior] returns: the statistic is 0
    when [x_op] equals the prior [x_a], its values are finite, the left
    eigenvectors that [scipy.linalg.eig] returned for the tested
    covariance are finite and [atol] is not negative; and it is at least 0
    when every kept eigenvalue is a positive number and no projected
    component of a kept pair is NaN. *)
Theorem chiSquareTestXOptimalPrior_sign (E : env) (e : engine)
    (significance atol : float) l chi2 crit :
  chiSquareTestXOptimalPrior E e significance atol = (l, Ok (chi2, crit)) ->
  exists delta_x Sep K l1 inv w V,
    [/\ [/\ x_op_minus_x_a e = Ok delta_x, S_Ep (sol e) = Val Sep
          & at_convI empty_array (K_i (hist e)) e = Ok K],
        invertMatrix E (madd (dot (dot K (S_a (cfg e))) (transpose K)) Sep) true
          = (l1, Ok inv),
        scipy_linalg_eig E
          (dot (dot (dot (dot (S_a (cfg e)) (transpose K)) inv) K) (S_a (cfg e)))
          = Ok (w, V),
        x_op (sol e) = Val (x_a (cfg e)) -> all finite (x_a (cfg e)) ->
          all (all finite) (rows V) -> ~~ (atol <? 0)%float -> (chi2 =? 0)%float
      & all (fun p => ~~ PrimFloat.is_nan p.1 && positive_finite p.2)
            (retained atol (matvec (transpose V) delta_x) w) ->
        (0 <=? chi2)%float].
Proof.
move=> /XOptimalPrior_test [delta_x [Sep [K [l1 [inv [l2 [Hd [HSep HK] Hinv Htest]]]]]]].
have [w [V [Heig _]]] := testChi2P Htest.
have [Hzero Hpos] := testChi2_sign Htest Heig.
exists delta_x, Sep, K, l1, inv, w, V; split=> //.
move=> Hx Hfin HV Hatol; apply: Hzero => //.
by move: Hd; rewrite /x_op_minus_x_a Hx => -[<-]; apply: vsub_self.
Qed.

Section SignCases.

Import OneD Cases Roots.


Lemma chiSquareTestYObservationPrior_sign_witness :
  exists e1 chi2 crit,
    chiSquareTestYObservationPrior (environment mild) converged_object
      0.05%float 1e-5%float = ([::], Ok (e1, (chi2, crit)))
    /\ (0 <=? chi2)%float.
Proof.
have [e1 [chi2 [crit Ht]]] : exists e1 chi2 crit,
    chiSquareTestYObservationPrior (environment mild) converged_object
      0.05%float 1e-5%float = ([::], Ok (e1, (chi2, crit))).
  eexists; eexists; eexists; vm_compute; reflexivity.
exists e1, chi2, crit; split; first exact: Ht.
have [ya [Sep [K [w [V [[Hya HSep HK] Heig _ Hpos]]]]]] :=
  chiSquareTestYObservationPrior_sign Ht.
apply: Hpos.
set cya := y_a _ _ in Hya.
have Eya : ya = if cya.2 is Ok a then a.2 else [::] by rewrite Hya.
set cSep := S_Ep (sol converged_object) in HSep.
have ESep : Sep = if cSep is Val a then a else empty_array by rewrite HSep.
set cK := at_convI _ _ _ in HK.
have EK : K = if cK is Ok a then a else empty_array by rewrite HK.
rewrite {}ESep {}EK in Heig.
set ceig := scipy_linalg_eig _ _ in Heig.
have Ew : w = if ceig is Ok a then a.1 else [::] by rewrite Heig.
have EV : V = if ceig is Ok a then a.2 else empty_array by rewrite Heig.
by rewrite Eya Ew EV; vm_compute.
Defined.

Lemma chiSquareTestYOptimalPrior_sign_witness :
  exists e1 chi2 crit,
    chiSquareTestYOptimalPrior (environment mild) converged_object
      0.05%float 1e-5%float = ([::], Ok (e1, (chi2, crit)))
    /\ (0 <=? chi2)%float.
Proof.
have [e1 [chi2 [crit Ht]]] : exists e1 chi2 crit,
    chiSquareTestYOptimalPrior (environment mild) converged_object
      0.05%float 1e-5%float = ([::], Ok (e1, (chi2, crit))).
  eexists; eexists; eexists; vm_compute; reflexivity.
exists e1, chi2, crit; split; first exact: Ht.
have [y [ya [Sep [K [l1 [inv [w [V [[Hy Hya HSep HK] Hinv Heig _ Hpos]]]]]]]]] :=
  chiSquareTestYOptimalPrior_sign Ht.
apply: Hpos.
set cy := at_convI _ _ _ in Hy.
have Ey : y = if cy is Ok a then a else [::] by rewrite Hy.
set cya := y_a _ _ in Hya.
have Eya : ya = if cya.2 is Ok a then a.2 else [::] by rewrite Hya.
set cSep := S_Ep (sol converged_object) in HSep.
have ESep : Sep = if cSep is Val a then a else empty_array by rewrite HSep.
set cK := at_convI _ _ _ in HK.
have EK : K = if cK is Ok a then a else empty_array by rewrite HK.
rewrite {}ESep {}EK in Hinv Heig; cbv zeta in Heig.
set cinv := invertMatrix _ _ _ in Hinv.
have Einv : inv = if cinv.2 is Ok a then a else empty_array by rewrite Hinv.
rewrite {}Einv in Heig.
set ceig := scipy_linalg_eig _ _ in Heig.
have Ew : w = if ceig is Ok a then a.1 else [::] by rewrite Heig.
have EV : V = if ceig is Ok a then a.2 else empty_array by rewrite Heig.
by rewrite Ey Eya Ew EV; vm_compute.
Defined.

Lemma chiSquareTestXOptimalPrior_sign_witness :
  exists chi2 crit,
    chiSquareTestXOptimalPrior (environment mild) converged_object
      0.05%float 1e-5%float = ([::], Ok (chi2, crit))
    /\ (0 <=? chi2)%float.
Proof.
have [chi2 [crit Ht]] : exists chi2 crit,
    chiSquareTestXOptimalPrior (environment mild) converged_object
      0.05%float 1e-5%float = ([::], Ok (chi2, crit)).
  eexists; eexists; vm_compute; reflexivity.
exists chi2, crit; split; first exact: Ht.
have [delta_x [Sep [K [l1 [inv [w [V [[Hd HSep HK] Hinv Heig _ Hpos]]]]]]]] :=
  chiSquareTestXOptimalPrior_sign Ht.
apply: Hpos.
set cd := x_op_minus_x_a _ in Hd.
have Ed : delta_x = if cd is Ok a then a else [::] by rewrite Hd.
set cSep := S_Ep (sol converged_object) in HSep.
have ESep : Sep = if cSep is Val a then a else empty_array by rewrite HSep.
set cK := at_convI _ _ _ in HK.
have EK : K = if cK is Ok a then a else empty_array by rewrite HK.
rewrite {}ESep {}EK in Hinv Heig.
set cinv := invertMatrix _ _ _ in Hinv.
have Einv : inv = if cinv.2 is Ok a then a else empty_array by rewrite Hinv.
rewrite {}Einv in Heig.
set ceig := scipy_linalg_eig _ _ in Heig.
have Ew : w = if ceig is Ok a then a.1 else [::] by rewrite Heig.
have EV : V = if ceig is Ok a then a.2 else empty_array by rewrite Heig.
by rewrite Ed Ew EV; vm_compute.
Defined.


End SignCases.
